(** * axios-plugin-jwt: the [withToken] interceptors

    A shallow embedding of [src/index.ts].  [withToken] installs two
    interceptors on an axios instance: a request interceptor that attaches the
    stored token, and a response-error interceptor that refreshes the token on
    a 401, queueing every other 401 that arrives while the refresh is running.

    JavaScript runs the interceptors on one thread; an [async] function gives
    up control only at an [await].  The embedding therefore cuts each function
    into its synchronous segments.  A segment is one call of [step]; the
    [Input] that triggers it says which awaited promise settled and how.  The
    caller-supplied functions ([getTokenFn], [setTokenFn], ...) and the HTTP
    transport are the environment: what they answer is carried by the input.

    The client the interceptors are installed on does three things that show
    in the embedding.  It merges its defaults into every descriptor it is
    called with, so an interceptor always finds a [headers] object.  It chains
    the handlers with [then], so the rejection of the request interceptor
    reaches the response error handler like the error of a response does.  And
    it is the client that the refresh call and every retry go through. *)

From Stdlib Require Import ZArith.
From stdpp Require Import base list strings option.

Local Open Scope string_scope.
Local Open Scope list_scope.

(** ** JavaScript values *)

(** The values a token, or a field of the refresh response, can hold. *)
Inductive Val :=
| VUndefined
| VNull
| VStr (s : string).

(** [if (v)] on such a value. *)
Definition truthy (v : Val) : bool :=
  match v with
  | VStr s => negb (String.eqb s "")
  | _ => false
  end.

(** [`${v}`] *)
Definition template (v : Val) : string :=
  match v with
  | VUndefined => "undefined"
  | VNull => "null"
  | VStr s => s
  end.

(** [a || b] *)
Definition jsOr (a b : Val) : Val := if truthy a then a else b.

(** What a promise can be rejected with (or what [throw] can throw). *)
Inductive Thrown :=
| TAxios (rid : nat) (status : option Z)  (* the AxiosError of request [rid]; [status] is [error.response?.status] *)
| TError (message : string)               (* [new Error(message)] *)
| TTypeError                              (* property access on [undefined] *)
| TValue (v : Val).                       (* a primitive used as a rejection reason *)

Definition truthyT (e : Thrown) : bool :=
  match e with
  | TValue v => truthy v
  | _ => true
  end.

(** ** Requests *)

Record Headers := { Authorization : option string }.

(** The request descriptor, [InternalAxiosRequestConfig & { _retry?: boolean }].
    Only the members the interceptors read or write are kept. *)
Record Config := {
  url : string;
  _retry : bool;
  headers : option Headers
}.

Definition setAuthorization (s : string) (c : Config) : Config :=
  {| url := url c; _retry := _retry c; headers := Some {| Authorization := Some s |} |}.

(** [if (c.headers)] *)
Definition hasHeaders (c : Config) : bool :=
  match headers c with
  | Some _ => true
  | None => false
  end.

Definition markRetry (c : Config) : Config :=
  {| url := url c; _retry := true; headers := headers c |}.

(** What the client makes of a descriptor it is called with, before any
    interceptor sees it ([mergeConfig(this.defaults, config)] and the
    concatenation of the headers): there is always a [headers] object, and in
    it the request's own [Authorization] wins over the one of
    [defaults.headers.common].  Members the client does not know, such as
    [_retry], are carried over. *)
Definition mergeConfig (common : option string) (c : Config) : Config :=
  {| url := url c; _retry := _retry c;
     headers := Some {| Authorization :=
                          match headers c with
                          | Some {| Authorization := Some a |} => Some a
                          | _ => common
                          end |} |}.

(** [response.data] of the refresh call: absent, or an object with the three
    members the default adapter reads. *)
Record Body := {
  token : Val;
  accessToken : Val;
  refreshToken : Val
}.

Definition Data := option Body.

(** The body posted to the refresh endpoint. *)
Definition Payload := list (string * Val).

(** ** Options *)

Record WithTokenOptions := {
  refreshTokenEndpoint : string;
  onRefreshFailure : bool;                                    (* is a callback configured *)
  authHeaderPrefix : option string;
  refreshTokenResponseAdapter : option (Data -> Thrown + Val * Val);
  refreshTokenPayloadAdapter : option (Val -> Thrown + Payload)
}.

(** The destructuring defaults of lines 67-72. *)
Definition defaultResponseAdapter (res : Data) : Thrown + Val * Val :=
  match res with
  | None => inl TTypeError
  | Some b => inr (jsOr (token b) (accessToken b), refreshToken b)
  end.

Definition defaultPayloadAdapter (refreshToken : Val) : Thrown + Payload :=
  inr [("refreshToken", refreshToken)].

Definition prefixOf (o : WithTokenOptions) : string :=
  default "Bearer " (authHeaderPrefix o).

Definition responseAdapterOf (o : WithTokenOptions) : Data -> Thrown + Val * Val :=
  default defaultResponseAdapter (refreshTokenResponseAdapter o).

Definition payloadAdapterOf (o : WithTokenOptions) : Val -> Thrown + Payload :=
  default defaultPayloadAdapter (refreshTokenPayloadAdapter o).

(** [`${authHeaderPrefix}${token}`] *)
Definition bearer (o : WithTokenOptions) (tok : Val) : string :=
  prefixOf o +:+ template tok.

(** ** The request interceptor (lines 92-101) *)

(** The part after [await getTokenFn()]. *)
Definition requestInterceptor (o : WithTokenOptions) (config : Config) (tok : Val) : Config :=
  if truthy tok && hasHeaders config
  then setAuthorization (bearer o tok) config
  else config.

(** The whole async function: [got] is how [getTokenFn()] settled. *)
Definition onRequest (o : WithTokenOptions) (config : Config) (got : Thrown + Val)
  : Thrown + Config :=
  match got with
  | inl e => inl e
  | inr tok => inr (requestInterceptor o config tok)
  end.

(** ** State of one augmented client *)

(** Who awaits a request: code outside, or the refresh driver that posted it. *)
Inductive Awaiter :=
| Caller
| RefreshCall (driver : nat).

Inductive Stage :=
| Handed                    (* given to [axiosInstance]; the request interceptor awaits [getTokenFn] *)
| Sent                      (* dispatched; no response yet *)
| Intercepted (tid : nat)   (* its error is held by the response interceptor, invocation [tid] *)
| Answered.                 (* its promise has settled *)

Record Req := {
  cfg : Config;
  awaiter : Awaiter;
  stage : Stage
}.

(** Where an invocation of the response-error interceptor is suspended. *)
Inductive Pc :=
| AwaitQueued                                  (* line 118 *)
| Woken (r : Thrown + Val)                     (* line 118, promise settled, continuation not yet run *)
| AwaitGetRefreshToken                         (* line 132 *)
| AwaitPost                                    (* line 139 *)
| AwaitSetToken (newToken newRefreshToken : Val)         (* line 149 *)
| AwaitSetRefreshToken (newToken newRefreshToken : Val)  (* line 150 *)
| AwaitRemoveToken (err : Thrown)              (* line 169 *)
| AwaitOnRefreshFailure (err : Thrown)         (* line 173 *)
| Finished.

Record Task := {
  t_rid : nat;   (* [originalRequest], as an index into [reqs] *)
  pc : Pc
}.

(** What the client does that can be seen from outside. *)
Inductive Event :=
| EvGetRefreshToken (tid : nat)
| EvPost (tid rid : nat) (payload : Payload)
| EvSetToken (tid : nat) (v : Val)
| EvSetRefreshToken (tid : nat) (v : Val)
| EvResolve (tid : nat) (tok : Val)     (* [prom.resolve(token)] *)
| EvReject (tid : nat) (e : Thrown)     (* [prom.reject(error)] *)
| EvReissue (rid : nat) (c : Config)    (* [axiosInstance(originalRequest)] *)
| EvRemoveToken (tid : nat)
| EvOnRefreshFailure (tid : nat) (e : Thrown)
| EvSettle (rid : nat) (r : Thrown + Data). (* the promise of request [rid] settles for its awaiter *)

Record State := {
  isRefreshing : bool;
  failedQueue : list nat;                 (* the invocation each QueueItem belongs to *)
  defaultAuthorization : option string;   (* [axiosInstance.defaults.headers.common.Authorization] *)
  reqs : list Req;
  tasks : list Task;
  trace : list Event
}.

Definition init : State :=
  {| isRefreshing := false; failedQueue := []; defaultAuthorization := None;
     reqs := []; tasks := []; trace := [] |}.

(** *** Field updates *)

Definition setRefreshing (b : bool) (st : State) : State :=
  {| isRefreshing := b; failedQueue := failedQueue st;
     defaultAuthorization := defaultAuthorization st;
     reqs := reqs st; tasks := tasks st; trace := trace st |}.

Definition setQueue (q : list nat) (st : State) : State :=
  {| isRefreshing := isRefreshing st; failedQueue := q;
     defaultAuthorization := defaultAuthorization st;
     reqs := reqs st; tasks := tasks st; trace := trace st |}.

Definition setDefault (s : string) (st : State) : State :=
  {| isRefreshing := isRefreshing st; failedQueue := failedQueue st;
     defaultAuthorization := Some s;
     reqs := reqs st; tasks := tasks st; trace := trace st |}.

Definition setReqs (l : list Req) (st : State) : State :=
  {| isRefreshing := isRefreshing st; failedQueue := failedQueue st;
     defaultAuthorization := defaultAuthorization st;
     reqs := l; tasks := tasks st; trace := trace st |}.

Definition setTasks (l : list Task) (st : State) : State :=
  {| isRefreshing := isRefreshing st; failedQueue := failedQueue st;
     defaultAuthorization := defaultAuthorization st;
     reqs := reqs st; tasks := l; trace := trace st |}.

Definition emit (ev : Event) (st : State) : State :=
  {| isRefreshing := isRefreshing st; failedQueue := failedQueue st;
     defaultAuthorization := defaultAuthorization st;
     reqs := reqs st; tasks := tasks st; trace := trace st ++ [ev] |}.

Definition setPc (p : Pc) (t : Task) : Task := {| t_rid := t_rid t; pc := p |}.
Definition setCfg (c : Config) (r : Req) : Req :=
  {| cfg := c; awaiter := awaiter r; stage := stage r |}.
Definition setStage (s : Stage) (r : Req) : Req :=
  {| cfg := cfg r; awaiter := awaiter r; stage := s |}.

Definition goto (tid : nat) (p : Pc) (st : State) : State :=
  setTasks (alter (setPc p) tid (tasks st)) st.

Definition spawn (rid : nat) (p : Pc) (st : State) : State :=
  setTasks (tasks st ++ [{| t_rid := rid; pc := p |}]) st.

Definition editReq (rid : nat) (f : Req -> Req) (st : State) : State :=
  setReqs (alter f rid (reqs st)) st.

Definition pcOf (st : State) (tid : nat) : option Pc := pc <$> tasks st !! tid.

(** ** processQueue (lines 80-89) *)

(** [resolve]/[reject] of a queue item settle the promise its invocation
    awaits; a promise settles once. *)
Definition settlePromise (tid : nat) (r : Thrown + Val) (st : State) : State :=
  match pcOf st tid with
  | Some AwaitQueued => goto tid (Woken r) st
  | _ => st
  end.

(** The body of the [forEach] callback. *)
Definition processItem (error : Thrown) (tok : Val) (st : State) (prom : nat) : State :=
  if truthyT error then settlePromise prom (inl error) (emit (EvReject prom error) st)
  else if truthy tok then settlePromise prom (inr tok) (emit (EvResolve prom tok) st)
  else st.

(** [null] is [TValue VNull] as an error and [VNull] as a token. *)
Definition processQueue (error : Thrown) (tok : Val) (st : State) : State :=
  setQueue [] (foldl (processItem error tok) st (failedQueue st)).

(** ** The response-error interceptor (lines 106-184) *)

(** [catch (err) { processQueue(err, null); await removeTokenFn(); ... *)
Definition catchBlock (d : nat) (err : Thrown) (st : State) : State :=
  goto d (AwaitRemoveToken err) (emit (EvRemoveToken d) (processQueue err VNull st)).

(** Lines 145-149, once the refresh call has answered. *)
Definition afterPost (o : WithTokenOptions) (d : nat) (data : Data) (st : State) : State :=
  match responseAdapterOf o data with
  | inl e => catchBlock d e st
  | inr (newToken, newRefreshToken) =>
      goto d (AwaitSetToken newToken newRefreshToken) (emit (EvSetToken d newToken) st)
  end.

(** The promise of request [rid] settles.  When the request is a refresh call,
    the driver awaiting it at line 139 goes on. *)
Definition settleReq (o : WithTokenOptions) (rid : nat) (r : Thrown + Data) (st : State) : State :=
  match reqs st !! rid with
  | None => st
  | Some q =>
      let st := emit (EvSettle rid r) (editReq rid (setStage Answered) st) in
      match awaiter q with
      | Caller => st
      | RefreshCall d =>
          match pcOf st d with
          | Some AwaitPost =>
              match r with
              | inl e => catchBlock d e st
              | inr data => afterPost o d data st
              end
          | _ => st
          end
      end
  end.

(** [axiosInstance(originalRequest)]: the event records the descriptor the
    client is called with, the request goes on with the merged one. *)
Definition handBack (common : option string) (q : Req) : Req :=
  setStage Handed (setCfg (mergeConfig common (cfg q)) q).

Definition reissue (rid : nat) (st : State) : State :=
  match reqs st !! rid with
  | None => st
  | Some q =>
      emit (EvReissue rid (cfg q)) (editReq rid (handBack (defaultAuthorization st)) st)
  end.

(** [return axiosInstance(originalRequest)] in invocation [tid] *)
Definition retryOriginal (tid : nat) (st : State) : State :=
  match tasks st !! tid with
  | None => st
  | Some t => goto tid Finished (reissue (t_rid t) st)
  end.

(** [return Promise.reject(e)] in invocation [tid] *)
Definition rejectWith (o : WithTokenOptions) (tid : nat) (e : Thrown) (st : State) : State :=
  match tasks st !! tid with
  | None => st
  | Some t => settleReq o (t_rid t) (inl e) (goto tid Finished st)
  end.

(** [error.response?.status === 401] *)
Definition is401 (status : option Z) : bool :=
  match status with
  | Some s => Z.eqb s 401
  | None => false
  end.

(** Line 113, [originalRequest._retry = true]; the request is from now on in
    the hands of invocation [tid]. *)
Definition hold (tid : nat) (q : Req) : Req :=
  setStage (Intercepted tid) (setCfg (markRetry (cfg q)) q).

(** How the first synchronous segment of the interceptor ends. *)
Inductive Handled :=
| Rejects (e : Thrown)   (* line 183 *)
| Suspends.              (* at line 118 or at line 132 *)

(** Lines 107-132 and 183, for the error of request [rid]. *)
Definition onRejected (rid : nat) (status : option Z) (st : State) : State * Handled :=
  match reqs st !! rid with
  | None => (st, Rejects (TAxios rid status))
  | Some q =>
      if is401 status && negb (_retry (cfg q)) then
        let tid := length (tasks st) in
        let st := editReq rid (hold tid) st in
        if isRefreshing st then
          (spawn rid AwaitQueued (setQueue (failedQueue st ++ [tid]) st), Suspends)
        else
          (spawn rid AwaitGetRefreshToken
             (emit (EvGetRefreshToken tid) (setRefreshing true st)), Suspends)
      else (st, Rejects (TAxios rid status))
  end.

(** The same handler, run on the rejection of the request interceptor.  The
    client chains the handlers as
    [then(requestInterceptor).then(dispatch).then(ok, onRejected)], so what
    [getTokenFn] rejects with reaches lines 106-184 as [error].
    - [undefined] and [null] have no members: line 107 throws a TypeError.
    - A primitive or an [Error] has neither [config] nor [response]: the test
      of line 112 is false, line 183 rejects with the value itself.
    - [TAxios r status] carries [error.config], the descriptor of request [r],
      and [error.response.status].  For [r = rid] this is the case of a
      response error.  For another request the test of line 112 is false when
      the status is not 401 or [r] carries [_retry].  An error that carries
      the unmarked descriptor of another request together with a 401 does not
      come from the transport (the 401 of [r] goes through this handler, which
      marks [r], before the promise of [r] settles); such a value is not an
      input of the embedding. *)
Definition onRejectedValue (rid : nat) (e : Thrown) (st : State) : option (State * Handled) :=
  match e with
  | TValue VUndefined | TValue VNull => Some (st, Rejects TTypeError)
  | TAxios r status =>
      if decide (r = rid) then Some (onRejected rid status st)
      else if is401 status then
        match reqs st !! r with
        | Some q => if _retry (cfg q) then Some (st, Rejects e) else None
        | None => None
        end
      else Some (st, Rejects e)
  | _ => Some (st, Rejects e)
  end.

(** Lines 121-125: the continuation of a queued invocation. *)
Definition resume (o : WithTokenOptions) (tid : nat) (r : Thrown + Val) (st : State) : State :=
  match r with
  | inl err => rejectWith o tid err st
  | inr tok =>
      match tasks st !! tid with
      | None => st
      | Some t =>
          match cfg <$> reqs st !! t_rid t with
          | Some c =>
              if hasHeaders c
              then retryOriginal tid
                     (editReq (t_rid t) (setCfg (setAuthorization (bearer o tok) c)) st)
              else rejectWith o tid TTypeError st
          | None => st
          end
      end
  end.

(** Lines 133-142.  [refreshConfig] is what [axiosInstance.post] is called
    with. *)
Definition refreshConfig (o : WithTokenOptions) : Config :=
  {| url := refreshTokenEndpoint o; _retry := false;
     headers := Some {| Authorization := None |} |}.

Definition afterGetRefreshToken (o : WithTokenOptions) (d : nat) (got : Thrown + Val)
    (st : State) : State :=
  match got with
  | inl e => catchBlock d e st
  | inr refreshToken =>
      if negb (truthy refreshToken)
      then catchBlock d (TError "No refresh token available") st
      else
        match payloadAdapterOf o refreshToken with
        | inl e => catchBlock d e st
        | inr payload =>
            let p := length (reqs st) in
            goto d AwaitPost
              (emit (EvPost d p payload)
                 (setReqs (reqs st ++ [{| cfg := mergeConfig (defaultAuthorization st)
                                                   (refreshConfig o);
                                          awaiter := RefreshCall d;
                                          stage := Handed |}]) st))
        end
  end.

(** Lines 153-163 with the [finally] of line 178. *)
Definition successTail (o : WithTokenOptions) (d : nat) (newToken : Val) (st : State) : State :=
  match tasks st !! d with
  | None => st
  | Some t =>
      let st := setDefault (bearer o newToken) st in
      let st := processQueue (TValue VNull) newToken st in
      let st := editReq (t_rid t)
                  (fun q => if hasHeaders (cfg q)
                            then setCfg (setAuthorization (bearer o newToken) (cfg q)) q
                            else q) st in
      setRefreshing false (retryOriginal d st)
  end.

(** Leaving the [catch] block: the [finally] runs, then the promise rejects. *)
Definition failTail (o : WithTokenOptions) (d : nat) (e : Thrown) (st : State) : State :=
  rejectWith o d e (setRefreshing false st).

(** ** One synchronous segment *)

Inductive Input :=
| CallerSend (c : Config)                              (* code outside calls [axiosInstance(c)] *)
| GetTokenDone (rid : nat) (got : Thrown + Val)        (* [getTokenFn()] settles, line 94 *)
| Response (rid : nat) (r : option Z + Data)           (* the transport answers: error status, or data *)
| GetRefreshTokenDone (tid : nat) (got : Thrown + Val) (* line 132 *)
| SetTokenDone (tid : nat) (failed : option Thrown)         (* line 149 *)
| SetRefreshTokenDone (tid : nat) (failed : option Thrown)  (* line 150 *)
| RemoveTokenDone (tid : nat) (failed : option Thrown)      (* line 169 *)
| OnRefreshFailureDone (tid : nat) (failed : option Thrown) (* line 173 *)
| Continue (tid : nat).                                (* a settled queue promise runs its continuation *)

Definition step (o : WithTokenOptions) (st : State) (i : Input) : option State :=
  match i with
  | CallerSend c =>
      Some (setReqs (reqs st ++ [{| cfg := mergeConfig (defaultAuthorization st) c;
                                    awaiter := Caller; stage := Handed |}]) st)
  | GetTokenDone rid got =>
      match reqs st !! rid with
      | Some {| cfg := c; stage := Handed |} =>
          match onRequest o c got with
          | inl e =>
              match onRejectedValue rid e st with
              | Some (st', Rejects e') => Some (settleReq o rid (inl e') st')
              | Some (st', Suspends) => Some st'
              | None => None
              end
          | inr c' => Some (editReq rid (fun q => setStage Sent (setCfg c' q)) st)
          end
      | _ => None
      end
  | Response rid r =>
      match stage <$> reqs st !! rid with
      | Some Sent =>
          match r with
          | inr data => Some (settleReq o rid (inr data) st)
          | inl status =>
              match onRejected rid status st with
              | (st', Rejects e) => Some (settleReq o rid (inl e) st')
              | (st', Suspends) => Some st'
              end
          end
      | _ => None
      end
  | GetRefreshTokenDone d got =>
      match pcOf st d with
      | Some AwaitGetRefreshToken => Some (afterGetRefreshToken o d got st)
      | _ => None
      end
  | SetTokenDone d failed =>
      match pcOf st d with
      | Some (AwaitSetToken newToken newRefreshToken) =>
          match failed with
          | Some e => Some (catchBlock d e st)
          | None =>
              Some (goto d (AwaitSetRefreshToken newToken newRefreshToken)
                      (emit (EvSetRefreshToken d newRefreshToken) st))
          end
      | _ => None
      end
  | SetRefreshTokenDone d failed =>
      match pcOf st d with
      | Some (AwaitSetRefreshToken newToken _) =>
          match failed with
          | Some e => Some (catchBlock d e st)
          | None => Some (successTail o d newToken st)
          end
      | _ => None
      end
  | RemoveTokenDone d failed =>
      match pcOf st d with
      | Some (AwaitRemoveToken err) =>
          match failed with
          | Some e => Some (failTail o d e st)
          | None =>
              if onRefreshFailure o
              then Some (goto d (AwaitOnRefreshFailure err) (emit (EvOnRefreshFailure d err) st))
              else Some (failTail o d err st)
          end
      | _ => None
      end
  | OnRefreshFailureDone d failed =>
      match pcOf st d with
      | Some (AwaitOnRefreshFailure err) =>
          match failed with
          | Some e => Some (failTail o d e st)
          | None => Some (failTail o d err st)
          end
      | _ => None
      end
  | Continue tid =>
      match pcOf st tid with
      | Some (Woken r) => Some (resume o tid r st)
      | _ => None
      end
  end.

(** A run: the segments executed in the order the scheduler picks them. *)
Fixpoint run (o : WithTokenOptions) (st : State) (ins : list Input) : option State :=
  match ins with
  | [] => Some st
  | i :: ins =>
      match step o st i with
      | Some st' => run o st' ins
      | None => None
      end
  end.

Inductive Reachable (o : WithTokenOptions) : State -> Prop :=
| reach_init : Reachable o init
| reach_step st i st' : Reachable o st -> step o st i = Some st' -> Reachable o st'.

Definition defaults : WithTokenOptions :=
  {| refreshTokenEndpoint := "/auth/refresh-token"; onRefreshFailure := true;
     authHeaderPrefix := None; refreshTokenResponseAdapter := None;
     refreshTokenPayloadAdapter := None |}.

Definition plain (u : string) : Config :=
  {| url := u; _retry := false; headers := Some {| Authorization := None |} |}.

(** ** Counting events *)

Definition countEv (f : Event -> bool) (tr : list Event) : nat :=
  length (List.filter f tr).

Definition isReissueOf (rid : nat) (ev : Event) : bool :=
  match ev with
  | EvReissue r _ => Nat.eqb r rid
  | _ => false
  end.

Definition isPostBy (d : nat) (ev : Event) : bool :=
  match ev with
  | EvPost t _ _ => Nat.eqb t d
  | _ => false
  end.

Definition isPost (ev : Event) : bool :=
  match ev with
  | EvPost _ _ _ => true
  | _ => false
  end.

Definition isCallbackBy (d : nat) (ev : Event) : bool :=
  match ev with
  | EvOnRefreshFailure t _ => Nat.eqb t d
  | _ => false
  end.

(** [resolve]/[reject] calls are the only events [processQueue] emits. *)
Definition isSettling (ev : Event) : bool :=
  match ev with
  | EvResolve _ _ | EvReject _ _ => true
  | _ => false
  end.

(** How often request [rid] was handed back to [axiosInstance] by the interceptor. *)
Definition reissues (rid : nat) (st : State) : nat := countEv (isReissueOf rid) (trace st).

(** Refresh calls issued so far, and those issued by invocation [d]. *)
Definition posts (st : State) : nat := countEv isPost (trace st).

(** How often invocation [d] called [onRefreshFailure]. *)
Definition callbacksBy (d : nat) (st : State) : nat := countEv (isCallbackBy d) (trace st).

(** The two things an invocation does once at most: the refresh call and the
    failure callback. *)
Inductive Milestone := MPost | MCallback.

Definition marks (m : Milestone) : nat -> Event -> bool :=
  match m with
  | MPost => isPostBy
  | MCallback => isCallbackBy
  end.

Definition marksBy (m : Milestone) (d : nat) (st : State) : nat :=
  countEv (marks m d) (trace st).

(** ** Shape of the state *)

(** An invocation that has set [isRefreshing] and not yet reached [finally]. *)
Definition driving (p : Pc) : bool :=
  match p with
  | AwaitGetRefreshToken | AwaitPost | AwaitSetToken _ _ | AwaitSetRefreshToken _ _
  | AwaitRemoveToken _ | AwaitOnRefreshFailure _ => true
  | AwaitQueued | Woken _ | Finished => false
  end.

(** An invocation that has not reached line 139 yet. *)
Definition beforePost (p : Pc) : bool :=
  match p with
  | AwaitQueued | Woken _ | AwaitGetRefreshToken => true
  | _ => false
  end.

(** An invocation that has not reached line 173 yet. *)
Definition beforeCallback (p : Pc) : bool :=
  match p with
  | AwaitOnRefreshFailure _ | Finished => false
  | _ => true
  end.

Definition before (m : Milestone) : Pc -> bool :=
  match m with
  | MPost => beforePost
  | MCallback => beforeCallback
  end.

(** An invocation that has passed the milestone and is still in the part of
    the cycle that follows it. *)
Definition past (m : Milestone) (p : Pc) : bool :=
  match m, p with
  | MPost, (AwaitPost | AwaitSetToken _ _ | AwaitSetRefreshToken _ _) => true
  | MCallback, AwaitOnRefreshFailure _ => true
  | _, _ => false
  end.

(** An invocation suspended inside the [try] block. *)
Definition inTry (p : Pc) : bool :=
  match p with
  | AwaitGetRefreshToken | AwaitPost | AwaitSetToken _ _ | AwaitSetRefreshToken _ _ => true
  | _ => false
  end.

(** The verdict [processQueue] hands to every item, if any. *)
Definition verdict (error : Thrown) (tok : Val) : option (Thrown + Val) :=
  if truthyT error then Some (inl error)
  else if truthy tok then Some (inr tok)
  else None.

Definition verdictEvent (r : Thrown + Val) (tid : nat) : Event :=
  match r with
  | inl e => EvReject tid e
  | inr tok => EvResolve tid tok
  end.

(** What [settlePromise] does to one invocation. *)
Definition wake (r : Thrown + Val) (t : Task) : Task :=
  match pc t with
  | AwaitQueued => setPc (Woken r) t
  | _ => t
  end.

(** The invocations [processQueue] wakes and the calls it makes. *)
Definition wakeIn (v : option (Thrown + Val)) (q : list nat) (j : nat) (t : Task) : Task :=
  match v with
  | Some r => if decide (j ∈ q) then wake r t else t
  | None => t
  end.

Definition verdictEvents (v : option (Thrown + Val)) (q : list nat) : list Event :=
  match v with
  | Some r => map (verdictEvent r) q
  | None => []
  end.

(** ** The invariant of reachable states *)

Record Inv (st : State) : Prop := {
  (* a driver holds the flag *)
  inv_flag : forall d t,
    tasks st !! d = Some t -> driving (pc t) = true -> isRefreshing st = true;
  (* there is one driver at most *)
  inv_one : forall d1 d2 t1 t2,
    tasks st !! d1 = Some t1 -> tasks st !! d2 = Some t2 ->
    driving (pc t1) = true -> driving (pc t2) = true -> d1 = d2;
  (* the queue holds suspended invocations, each once *)
  inv_queue : forall j,
    j ∈ failedQueue st -> exists t, tasks st !! j = Some t /\ pc t = AwaitQueued;
  inv_nodup : NoDup (failedQueue st);
  (* an unfinished invocation holds its request *)
  inv_task : forall j t,
    tasks st !! j = Some t -> pc t <> Finished ->
    exists q, reqs st !! t_rid t = Some q /\ stage q = Intercepted j;
  (* a refresh call that has not settled is awaited at line 139 *)
  inv_call : forall rid q d,
    reqs st !! rid = Some q -> awaiter q = RefreshCall d -> stage q <> Answered ->
    exists t, tasks st !! d = Some t /\ pc t = AwaitPost;
  inv_uniq : forall r1 r2 q1 q2 d,
    reqs st !! r1 = Some q1 -> reqs st !! r2 = Some q2 ->
    awaiter q1 = RefreshCall d -> awaiter q2 = RefreshCall d ->
    stage q1 <> Answered -> stage q2 <> Answered -> r1 = r2;
  (* a request held by the interceptor carries the marker *)
  inv_marked : forall rid q j,
    reqs st !! rid = Some q -> stage q = Intercepted j -> _retry (cfg q) = true;
  (* a request is reissued once at most, and only after it was marked *)
  inv_reissue : forall rid,
    reissues rid st <= 1 /\
    match reqs st !! rid with
    | Some q => (_retry (cfg q) = false -> reissues rid st = 0) /\
                (forall j, stage q = Intercepted j -> reissues rid st = 0)
    | None => reissues rid st = 0
    end;
  (* an invocation posts one refresh call, and calls back once, at most *)
  inv_once : forall m d,
    marksBy m d st <= 1 /\
    match tasks st !! d with
    | Some t => (before m (pc t) = true -> marksBy m d st = 0) /\
                (past m (pc t) = true -> marksBy m d st = 1)
    | None => marksBy m d st = 0
    end
}.

Ltac open_inv H :=
  destruct H as [Hflag Hone Hqueue Hnodup Htask Hcall Huniq Hmarked Hreissue Hposts].

(** No refresh call of invocation [d] is outstanding. *)
Definition NoCall (st : State) (d : nat) : Prop :=
  forall rid q, reqs st !! rid = Some q -> awaiter q = RefreshCall d -> stage q = Answered.

(** No invocation is between [isRefreshing = true] and the [finally]. *)
Definition Idle (st : State) : Prop :=
  forall j t, tasks st !! j = Some t -> driving (pc t) = false.

(** Events other than a reissue or a refresh call leave the invariant alone. *)
Definition quiet (ev : Event) : bool :=
  match ev with
  | EvReissue _ _ | EvPost _ _ _ | EvOnRefreshFailure _ _ => false
  | _ => true
  end.

(** ** Vocabulary of the claims *)

Definition authorizationOf (c : Config) : option string :=
  match headers c with
  | Some h => Authorization h
  | None => None
  end.



Definition handedOver : State :=
  {| isRefreshing := false; failedQueue := []; defaultAuthorization := None;
     reqs := [{| cfg := plain "/a"; awaiter := Caller; stage := Handed |}];
     tasks := []; trace := [] |}.

Definition inFlight (c : Config) : State :=
  {| isRefreshing := false; failedQueue := []; defaultAuthorization := None;
     reqs := [{| cfg := c; awaiter := Caller; stage := Sent |}];
     tasks := []; trace := [] |}.

(** ** Worked runs *)

Definition body (t a r : Val) : Data :=
  Some {| token := t; accessToken := a; refreshToken := r |}.

Definition unauthorized : option Z + Data := inl (Some 401%Z).

(** The state a run from [init] ends in ([init] itself when an input is not
    enabled). *)
Definition after (o : WithTokenOptions) (ins : list Input) : State :=
  default init (run o init ins).

(** Scenario C: one request, its 401, a refresh that succeeds. *)
Definition scenarioC : list Input :=
  [CallerSend (plain "/a"); GetTokenDone 0 (inr (VStr "abc")); Response 0 unauthorized;
   GetRefreshTokenDone 0 (inr (VStr "r1")); GetTokenDone 1 (inr (VStr "abc"));
   Response 1 (inr (body (VStr "abc2") VUndefined (VStr "r2")));
   SetTokenDone 0 None; SetRefreshTokenDone 0 None].

(** A refresh call that is itself answered with a 401. *)
Definition refreshUnauthorized : list Input :=
  [CallerSend (plain "/a"); GetTokenDone 0 (inr (VStr "abc")); Response 0 unauthorized;
   GetRefreshTokenDone 0 (inr (VStr "r1")); GetTokenDone 1 (inr (VStr "abc"));
   Response 1 unauthorized].

Definition refreshInFlight : State :=
  after defaults
    [CallerSend (plain "/a"); GetTokenDone 0 (inr (VStr "abc")); Response 0 unauthorized;
     GetRefreshTokenDone 0 (inr (VStr "r1")); GetTokenDone 1 (inr (VStr "abc"))].

(** ** When the [try] block throws *)

(** [RefreshFailure o st d i err st0]: segment [i], run in state [st], makes
    the [try] block of driver [d] throw [err]; the [catch] block starts from
    [st0] (which is [st], or [st] with the refresh call settled). *)
Inductive RefreshFailure (o : WithTokenOptions) (st : State) (d : nat)
  : Input -> Thrown -> State -> Prop :=
| rf_lookup e :                                   (* [getRefreshTokenFn] rejects *)
    pcOf st d = Some AwaitGetRefreshToken ->
    RefreshFailure o st d (GetRefreshTokenDone d (inl e)) e st
| rf_missing v :                                  (* no refresh token *)
    pcOf st d = Some AwaitGetRefreshToken -> truthy v = false ->
    RefreshFailure o st d (GetRefreshTokenDone d (inr v))
      (TError "No refresh token available") st
| rf_payload v e :                                (* the payload adapter throws *)
    pcOf st d = Some AwaitGetRefreshToken -> truthy v = true ->
    payloadAdapterOf o v = inl e ->
    RefreshFailure o st d (GetRefreshTokenDone d (inr v)) e st
| rf_inject p q e e' :                            (* [getTokenFn] rejects for the refresh call *)
    pcOf st d = Some AwaitPost -> reqs st !! p = Some q ->
    awaiter q = RefreshCall d -> stage q = Handed ->
    onRejectedValue p e st = Some (st, Rejects e') ->
    RefreshFailure o st d (GetTokenDone p (inl e)) e'
      (emit (EvSettle p (inl e')) (editReq p (setStage Answered) st))
| rf_call p q status :                            (* the refresh call is answered with an error *)
    pcOf st d = Some AwaitPost -> reqs st !! p = Some q ->
    awaiter q = RefreshCall d -> stage q = Sent ->
    status <> Some 401%Z \/ _retry (cfg q) = true ->
    RefreshFailure o st d (Response p (inl status)) (TAxios p status)
      (emit (EvSettle p (inl (TAxios p status))) (editReq p (setStage Answered) st))
| rf_adapter p q data e :                         (* the response adapter throws *)
    pcOf st d = Some AwaitPost -> reqs st !! p = Some q ->
    awaiter q = RefreshCall d -> stage q = Sent ->
    responseAdapterOf o data = inl e ->
    RefreshFailure o st d (Response p (inr data)) e
      (emit (EvSettle p (inr data)) (editReq p (setStage Answered) st))
| rf_setToken newToken newRefreshToken e :        (* [setTokenFn] rejects *)
    pcOf st d = Some (AwaitSetToken newToken newRefreshToken) ->
    RefreshFailure o st d (SetTokenDone d (Some e)) e st
| rf_setRefreshToken newToken newRefreshToken e : (* [setRefreshTokenFn] rejects *)
    pcOf st d = Some (AwaitSetRefreshToken newToken newRefreshToken) ->
    RefreshFailure o st d (SetRefreshTokenDone d (Some e)) e st.

(** ** The failure path *)

(** Refresh tokens missing, one request. *)
Definition removalFails : list Input :=
  [CallerSend (plain "/a"); GetTokenDone 0 (inr (VStr "abc")); Response 0 unauthorized;
   GetRefreshTokenDone 0 (inr VNull); RemoveTokenDone 0 (Some (TError "storage"))].

(** Scenario E: the refresh token is absent. *)
Definition drivingAlone : State :=
  after defaults
    [CallerSend (plain "/a"); GetTokenDone 0 (inr (VStr "abc")); Response 0 unauthorized].

(** ** The success path *)

Definition withAuthorization (o : WithTokenOptions) (tok : Val) (c : Config) : Config :=
  if hasHeaders c then setAuthorization (bearer o tok) c else c.

(** Two requests fail, the refresh answers with an empty token. *)
Definition emptyCredential : list Input :=
  [CallerSend (plain "/a"); CallerSend (plain "/b");
   GetTokenDone 0 (inr (VStr "abc")); GetTokenDone 1 (inr (VStr "abc"));
   Response 0 unauthorized; Response 1 unauthorized;
   GetRefreshTokenDone 0 (inr (VStr "r1")); GetTokenDone 2 (inr (VStr "abc"));
   Response 2 (inr (body (VStr "") (VStr "") (VStr "r2")));
   SetTokenDone 0 None; SetRefreshTokenDone 0 None].

(** Two requests have failed, the second is queued; the refresh call of the
    first is in flight. *)
Definition twoRefreshing : State :=
  after defaults
    [CallerSend (plain "/a"); CallerSend (plain "/b");
     GetTokenDone 0 (inr (VStr "abc")); GetTokenDone 1 (inr (VStr "abc"));
     Response 0 unauthorized; Response 1 unauthorized;
     GetRefreshTokenDone 0 (inr (VStr "r1")); GetTokenDone 2 (inr (VStr "abc"))].

(** The same cycle at its last [await]: the refresh has answered
    [{token: "abc2", refreshToken: "r2"}]. *)
Definition storingTwo : State :=
  after defaults
    [CallerSend (plain "/a"); CallerSend (plain "/b");
     GetTokenDone 0 (inr (VStr "abc")); GetTokenDone 1 (inr (VStr "abc"));
     Response 0 unauthorized; Response 1 unauthorized;
     GetRefreshTokenDone 0 (inr (VStr "r1")); GetTokenDone 2 (inr (VStr "abc"));
     Response 2 (inr (body (VStr "abc2") VUndefined (VStr "r2")));
     SetTokenDone 0 None].

(** ** [removeTokenFn] rejects *)



(** ** Waiters that are never released *)

(** The second 401 arrives while the driver awaits [removeTokenFn]. *)
Definition lateArrival : list Input :=
  [CallerSend (plain "/a"); CallerSend (plain "/b");
   GetTokenDone 0 (inr (VStr "abc")); GetTokenDone 1 (inr (VStr "abc"));
   Response 0 unauthorized;
   GetRefreshTokenDone 0 (inr VNull);
   Response 1 unauthorized;
   RemoveTokenDone 0 None; OnRefreshFailureDone 0 None].

(** ** A burst of 401s *)





(** ** The refresh itself, up to the last [await] of the [try] block *)

Definition refreshCall (o : WithTokenOptions) (common : option string) (d : nat) : Req :=
  {| cfg := mergeConfig common (refreshConfig o); awaiter := RefreshCall d; stage := Handed |}.


(** ** The released waiters *)


(** ** N requests fail at once and the refresh succeeds *)











(** ** Single flight *)






(** ** Further states *)

(** Two requests have failed, both are held by the interceptor. *)
Definition twoWaiting : State :=
  after defaults
    [CallerSend (plain "/a"); CallerSend (plain "/b");
     GetTokenDone 0 (inr (VStr "abc")); GetTokenDone 1 (inr (VStr "abc"));
     Response 0 unauthorized; Response 1 unauthorized].

(** Two requests have failed; the refresh has succeeded and resolved the
    second one. *)
Definition wokenWaiter : State :=
  after defaults
    [CallerSend (plain "/a"); CallerSend (plain "/b");
     GetTokenDone 0 (inr (VStr "abc")); GetTokenDone 1 (inr (VStr "abc"));
     Response 0 unauthorized; Response 1 unauthorized;
     GetRefreshTokenDone 0 (inr (VStr "r1")); GetTokenDone 2 (inr (VStr "abc"));
     Response 2 (inr (body (VStr "abc2") VUndefined (VStr "r2")));
     SetTokenDone 0 None; SetRefreshTokenDone 0 None].

(** The failure callback has been called and is awaited. *)
Definition callbackPending : State :=
  after defaults
    [CallerSend (plain "/a"); GetTokenDone 0 (inr (VStr "abc")); Response 0 unauthorized;
     GetRefreshTokenDone 0 (inr VNull); RemoveTokenDone 0 None].

(** The refresh answered with a body that has neither [token] nor
    [accessToken]; one waiter is queued; [setRefreshTokenFn] is awaited. *)
Definition storingNothing : State :=
  after defaults
    [CallerSend (plain "/a"); CallerSend (plain "/b");
     GetTokenDone 0 (inr (VStr "abc")); GetTokenDone 1 (inr (VStr "abc"));
     Response 0 unauthorized; Response 1 unauthorized;
     GetRefreshTokenDone 0 (inr (VStr "r1")); GetTokenDone 2 (inr (VStr "abc"));
     Response 2 (inr (body VUndefined VUndefined (VStr "r2")));
     SetTokenDone 0 None].

(** Scenario C up to the last [await] of the [try] block. *)
Definition storing : State :=
  after defaults
    [CallerSend (plain "/a"); GetTokenDone 0 (inr (VStr "abc")); Response 0 unauthorized;
     GetRefreshTokenDone 0 (inr (VStr "r1")); GetTokenDone 1 (inr (VStr "abc"));
     Response 1 (inr (body (VStr "abc2") VUndefined (VStr "r2")));
     SetTokenDone 0 None].

(** A refresh has succeeded and left its default header; the next request
    fails, and its invocation looks for the refresh token. *)
Definition staleHeader : State :=
  after defaults
    (scenarioC ++
     [GetTokenDone 0 (inr (VStr "abc2")); Response 0 (inr None);
      CallerSend (plain "/b"); GetTokenDone 2 (inr (VStr "abc2")); Response 2 unauthorized]).

(** ** Vocabulary of the further properties *)

(** An invocation is between line 128 and the [finally] of line 178. *)
Definition Driver (st : State) (d : nat) : Prop :=
  exists t, tasks st !! d = Some t /\ driving (pc t) = true.

(** What [processQueue] can settle a queue item with: it rejects with a truthy
    error and resolves with a truthy token, and does nothing else. *)
Definition settledWith (r : Thrown + Val) : bool :=
  match r with
  | inl e => truthyT e
  | inr tok => truthy tok
  end.

Definition wokenOk (p : Pc) : bool :=
  match p with
  | Woken r => settledWith r
  | _ => true
  end.

Definition AllOk (st : State) : Prop :=
  forall j t, tasks st !! j = Some t -> wokenOk (pc t) = true.

(** The refresh call [p] of driver [d] was answered with a 401 and sits in the
    queue as invocation [j], while [d] awaits it at line 139. *)
Definition Deadlocked (st : State) (d p j : nat) : Prop :=
  (exists t, tasks st !! d = Some t /\ pc t = AwaitPost) /\
  (exists q, reqs st !! p = Some q /\ awaiter q = RefreshCall d /\ stage q = Intercepted j) /\
  j ∈ failedQueue st.

(** * Proofs *)

(** ** Effect of [processQueue] *)

Lemma wake_idemp r t : wake r (wake r t) = wake r t.
Proof. unfold wake. destruct t as [rid []]; reflexivity. Qed.

Lemma wake_rid r t : t_rid (wake r t) = t_rid t.
Proof. unfold wake. destruct (pc t); reflexivity. Qed.

Lemma wake_pc r t :
  pc (wake r t) = match pc t with AwaitQueued => Woken r | p => p end.
Proof. unfold wake. destruct t as [rid []]; reflexivity. Qed.

Lemma settlePromise_tasks tid r st j :
  tasks (settlePromise tid r st) !! j =
  if decide (tid = j) then wake r <$> tasks st !! j else tasks st !! j.
Proof.
  unfold settlePromise, pcOf.
  destruct (tasks st !! tid) as [t|] eqn:Ht; simpl.
  - destruct (pc t) eqn:Hp; simpl;
      try (case_decide; [subst j; rewrite Ht; simpl; unfold wake; rewrite Hp|]; reflexivity).
    rewrite list_lookup_alter. case_decide; [subst j|reflexivity].
    rewrite Ht. simpl. unfold wake. rewrite Hp. reflexivity.
  - case_decide; [subst j; rewrite Ht|]; reflexivity.
Qed.

Lemma settlePromise_frame tid r st :
  isRefreshing (settlePromise tid r st) = isRefreshing st /\
  failedQueue (settlePromise tid r st) = failedQueue st /\
  defaultAuthorization (settlePromise tid r st) = defaultAuthorization st /\
  reqs (settlePromise tid r st) = reqs st /\
  trace (settlePromise tid r st) = trace st.
Proof.
  unfold settlePromise. destruct (pcOf st tid) as [[]|]; simpl; auto.
Qed.

(** The loop of [processQueue] over the items [q]. *)
Lemma processItems_spec error tok r q : forall st,
  verdict error tok = Some r ->
  let st' := foldl (processItem error tok) st q in
  isRefreshing st' = isRefreshing st /\
  failedQueue st' = failedQueue st /\
  defaultAuthorization st' = defaultAuthorization st /\
  reqs st' = reqs st /\
  trace st' = trace st ++ map (verdictEvent r) q /\
  forall j, tasks st' !! j =
            if decide (j ∈ q) then wake r <$> tasks st !! j else tasks st !! j.
Proof.
  induction q as [|tid q IH]; intros st Hv; simpl.
  - rewrite app_nil_r. repeat split; reflexivity.
  - set (st1 := processItem error tok st tid).
    assert (H1 : isRefreshing st1 = isRefreshing st /\
                 failedQueue st1 = failedQueue st /\
                 defaultAuthorization st1 = defaultAuthorization st /\
                 reqs st1 = reqs st /\
                 trace st1 = trace st ++ [verdictEvent r tid] /\
                 forall j, tasks st1 !! j =
                           if decide (tid = j) then wake r <$> tasks st !! j
                           else tasks st !! j).
    { subst st1. unfold processItem. unfold verdict in Hv.
      destruct (truthyT error); [|destruct (truthy tok); [|discriminate]];
        injection Hv as <-;
        match goal with |- context [settlePromise ?t ?r ?s] =>
          destruct (settlePromise_frame t r s) as (-> & -> & -> & -> & ->);
          repeat split; try reflexivity;
          intros j; rewrite settlePromise_tasks; reflexivity
        end. }
    destruct H1 as (E1 & E2 & E3 & E4 & E5 & E6).
    destruct (IH st1 Hv) as (F1 & F2 & F3 & F4 & F5 & F6).
    rewrite F1, F2, F3, F4, F5, E1, E2, E3, E4, E5.
    repeat split; try reflexivity.
    + rewrite <- app_assoc. reflexivity.
    + intros j. rewrite F6, E6.
      destruct (decide (j ∈ tid :: q)) as [Hin|Hnin].
      * destruct (decide (tid = j)) as [->|Hne].
        -- case_decide; [|reflexivity].
           destruct (tasks st !! j); simpl; [rewrite wake_idemp|]; reflexivity.
        -- apply elem_of_cons in Hin as [?|Hin]; [congruence|].
           rewrite decide_True by assumption. reflexivity.
      * apply not_elem_of_cons in Hnin as [Hne Hnin].
        rewrite decide_False by assumption.
        rewrite decide_False by congruence. reflexivity.
Qed.

Lemma processItems_none error tok q : forall st,
  verdict error tok = None -> foldl (processItem error tok) st q = st.
Proof.
  induction q as [|tid q IH]; intros st Hv; simpl; [reflexivity|].
  assert (processItem error tok st tid = st) as ->; [|by apply IH].
  unfold processItem. unfold verdict in Hv.
  destruct (truthyT error); [discriminate|].
  destruct (truthy tok); [discriminate|reflexivity].
Qed.

Lemma processQueue_spec error tok st :
  let st' := processQueue error tok st in
  isRefreshing st' = isRefreshing st /\
  failedQueue st' = [] /\
  defaultAuthorization st' = defaultAuthorization st /\
  reqs st' = reqs st /\
  trace st' = trace st ++ verdictEvents (verdict error tok) (failedQueue st) /\
  forall j, tasks st' !! j = wakeIn (verdict error tok) (failedQueue st) j <$> tasks st !! j.
Proof.
  unfold processQueue. simpl.
  destruct (verdict error tok) as [r|] eqn:Hv.
  - destruct (processItems_spec error tok r (failedQueue st) st Hv)
      as (E1 & E2 & E3 & E4 & E5 & E6).
    repeat split; try assumption; try reflexivity.
    intros j. rewrite E6. unfold wakeIn.
    case_decide; destruct (tasks st !! j); reflexivity.
  - rewrite processItems_none by assumption. simpl. rewrite app_nil_r.
    repeat split; try reflexivity.
    intros j. destruct (tasks st !! j); reflexivity.
Qed.

(** ** Lookups after an update *)

Lemma tasks_goto d p st j :
  tasks (goto d p st) !! j =
  if decide (d = j) then setPc p <$> tasks st !! j else tasks st !! j.
Proof.
  unfold goto. simpl. rewrite list_lookup_alter.
  case_decide; [subst|]; reflexivity.
Qed.

Lemma tasks_spawn rid p st j :
  tasks (spawn rid p st) !! j =
  match tasks st !! j with
  | Some t => Some t
  | None => if decide (j = length (tasks st)) then Some {| t_rid := rid; pc := p |} else None
  end.
Proof.
  unfold spawn. simpl. rewrite lookup_app.
  destruct (tasks st !! j) eqn:E; [reflexivity|].
  apply lookup_ge_None in E.
  case_decide as Hj.
  - subst j. rewrite Nat.sub_diag. reflexivity.
  - destruct (j - length (tasks st)) as [|k] eqn:Hk; [lia|reflexivity].
Qed.

Lemma reqs_editReq rid f st j :
  reqs (editReq rid f st) !! j =
  if decide (rid = j) then f <$> reqs st !! j else reqs st !! j.
Proof.
  unfold editReq. simpl. rewrite list_lookup_alter.
  case_decide; [subst|]; reflexivity.
Qed.

Lemma lookup_snoc_case {A} (l : list A) (x : A) j :
  (l ++ [x]) !! j =
  match l !! j with
  | Some y => Some y
  | None => if decide (j = length l) then Some x else None
  end.
Proof.
  rewrite lookup_app. destruct (l !! j) eqn:E; [reflexivity|].
  apply lookup_ge_None in E. case_decide as Hj.
  - subst j. rewrite Nat.sub_diag. reflexivity.
  - destruct (j - length l) as [|k] eqn:Hk; [lia|reflexivity].
Qed.

Lemma countEv_app f tr1 tr2 : countEv f (tr1 ++ tr2) = countEv f tr1 + countEv f tr2.
Proof. unfold countEv. rewrite List.filter_app, length_app. reflexivity. Qed.

Lemma countEv_snoc f tr ev :
  countEv f (tr ++ [ev]) = countEv f tr + (if f ev then 1 else 0).
Proof. rewrite countEv_app. unfold countEv. simpl. destruct (f ev); reflexivity. Qed.

Lemma countEv_settling f v q :
  (forall ev, isSettling ev = true -> f ev = false) ->
  countEv f (verdictEvents v q) = 0.
Proof.
  intros Hf. destruct v as [r|]; [|reflexivity]. simpl.
  induction q as [|tid q IH]; [reflexivity|].
  unfold countEv in *. simpl. rewrite Hf; [exact IH|].
  destruct r; reflexivity.
Qed.

(** ** The invariant holds in every reachable state *)

Lemma Inv_init : Inv init.
Proof.
  split; simpl; intros;
    try match goal with H : [] !! _ = Some _ |- _ => by rewrite lookup_nil in H end.
  - by apply elem_of_nil in H.
  - constructor.
  - unfold reissues, countEv. simpl. lia.
  - unfold marksBy, countEv. simpl. lia.
Qed.

Lemma Inv_NoCall st d t :
  Inv st -> tasks st !! d = Some t -> pc t <> AwaitPost -> NoCall st d.
Proof.
  intros HI Ht Hp rid q Hq Ha.
  destruct (stage q) eqn:Hs; try reflexivity;
    destruct (inv_call st HI rid q d Hq Ha) as (t' & Ht' & Hp');
    try (rewrite Hs; discriminate); congruence.
Qed.

Lemma reissues_emit rid ev st :
  reissues rid (emit ev st) = reissues rid st + (if isReissueOf rid ev then 1 else 0).
Proof. unfold reissues. simpl. apply countEv_snoc. Qed.

Lemma marksBy_emit m d ev st :
  marksBy m d (emit ev st) = marksBy m d st + (if marks m d ev then 1 else 0).
Proof. unfold marksBy. simpl. apply countEv_snoc. Qed.

Lemma quiet_reissue ev rid : quiet ev = true -> isReissueOf rid ev = false.
Proof. destruct ev; simpl; congruence. Qed.

Lemma quiet_marks ev m d : quiet ev = true -> marks m d ev = false.
Proof. destruct m, ev; simpl; congruence. Qed.

Lemma Inv_emit ev st : quiet ev = true -> Inv st -> Inv (emit ev st).
Proof.
  intros Hq HI. open_inv HI.
  split; simpl; try assumption.
  - intros rid. rewrite reissues_emit, (quiet_reissue _ _ Hq), Nat.add_0_r. auto.
  - intros m d. rewrite marksBy_emit, (quiet_marks _ _ _ Hq), Nat.add_0_r. auto.
Qed.

Lemma Inv_setDefault s st : Inv st -> Inv (setDefault s st).
Proof. intros HI. open_inv HI. split; simpl; assumption. Qed.

Lemma Inv_idle st : Inv st -> Idle st -> Inv (setRefreshing false st).
Proof.
  intros HI Hidle. open_inv HI. split; simpl; try assumption.
  intros d t Ht Hd. rewrite (Hidle d t Ht) in Hd. discriminate.
Qed.

(** Rewriting the headers of a request. *)
Lemma Inv_editCfg rid f st :
  (forall q, reqs st !! rid = Some q ->
             _retry (cfg (f q)) = _retry (cfg q) /\ awaiter (f q) = awaiter q /\
             stage (f q) = stage q) ->
  Inv st -> Inv (editReq rid f st).
Proof.
  intros Hf HI.
  assert (Hlk : forall j q', reqs (editReq rid f st) !! j = Some q' ->
            exists q, reqs st !! j = Some q /\ _retry (cfg q') = _retry (cfg q) /\
                      awaiter q' = awaiter q /\ stage q' = stage q).
  { intros j q'. rewrite reqs_editReq. case_decide.
    - subst j. destruct (reqs st !! rid) as [q|] eqn:Hq; simpl; [|discriminate].
      intros [= <-]. exists q. split; [reflexivity|by apply Hf].
    - intros Hq. exists q'. auto. }
  open_inv HI.
  split; try (simpl; assumption).
  - intros j t Ht Hp. destruct (Htask j t Ht Hp) as (q & Hq & Hs).
    rewrite reqs_editReq. case_decide as Hj.
    + rewrite Hq. simpl. eexists. split; [reflexivity|].
      rewrite <- Hj in Hq. destruct (Hf q Hq) as (_ & _ & ->). exact Hs.
    + eauto.
  - intros r q' d Hq' Ha Hs. apply Hlk in Hq' as (q & Hq & _ & Ea & Es).
    apply (Hcall r q d Hq); congruence.
  - intros r1 r2 q1 q2 d H1 H2 A1 A2 S1 S2.
    apply Hlk in H1 as (p1 & H1 & _ & Ea1 & Es1).
    apply Hlk in H2 as (p2 & H2 & _ & Ea2 & Es2).
    apply (Huniq r1 r2 p1 p2 d); congruence.
  - intros r q' j Hq' Hs. apply Hlk in Hq' as (q & Hq & Er & _ & Es).
    rewrite Er. apply (Hmarked r q j Hq). congruence.
  - intros r. destruct (Hreissue r) as [Hle Hm].
    split; [exact Hle|]. change (reissues r (editReq rid f st)) with (reissues r st).
    destruct (reqs (editReq rid f st) !! r) as [q'|] eqn:Hq'.
    + apply Hlk in Hq' as (q & Hq & Er & _ & Es). rewrite Hq in Hm.
      rewrite Er, Es. exact Hm.
    + rewrite reqs_editReq in Hq'. case_decide.
      * destruct (reqs st !! r); [discriminate|exact Hm].
      * rewrite Hq' in Hm. exact Hm.
Qed.

(** Waking changes neither what an invocation holds nor whether it drives. *)
Lemma wakeIn_rid v q j t : t_rid (wakeIn v q j t) = t_rid t.
Proof. unfold wakeIn. destruct v; [case_decide|]; auto using wake_rid. Qed.

Lemma wakeIn_pc v q j t :
  pc (wakeIn v q j t) = pc t \/
  (pc t = AwaitQueued /\ exists r, v = Some r /\ j ∈ q /\ pc (wakeIn v q j t) = Woken r).
Proof.
  unfold wakeIn. destruct v as [r|]; [|by left].
  case_decide; [|by left]. rewrite wake_pc.
  destruct (pc t); try (by left). right. eauto.
Qed.

Lemma wakeIn_driving v q j t : driving (pc (wakeIn v q j t)) = driving (pc t).
Proof.
  destruct (wakeIn_pc v q j t) as [->|(-> & r & _ & _ & ->)]; reflexivity.
Qed.

Lemma wakeIn_before m v q j t : before m (pc (wakeIn v q j t)) = before m (pc t).
Proof.
  destruct (wakeIn_pc v q j t) as [->|(-> & r & _ & _ & ->)]; [reflexivity|].
  destruct m; reflexivity.
Qed.

Lemma wakeIn_past m v q j t : past m (pc (wakeIn v q j t)) = past m (pc t).
Proof.
  destruct (wakeIn_pc v q j t) as [->|(-> & r & _ & _ & ->)]; [reflexivity|].
  destruct m; reflexivity.
Qed.

Lemma wakeIn_finished v q j t : pc (wakeIn v q j t) = Finished <-> pc t = Finished.
Proof.
  destruct (wakeIn_pc v q j t) as [->|(-> & r & _ & _ & ->)]; [tauto|].
  split; discriminate.
Qed.

Lemma wakeIn_post v q j t : pc (wakeIn v q j t) = AwaitPost <-> pc t = AwaitPost.
Proof.
  destruct (wakeIn_pc v q j t) as [->|(-> & r & _ & _ & ->)]; [tauto|].
  split; discriminate.
Qed.

Lemma processQueue_counts f error tok st :
  (forall ev, isSettling ev = true -> f ev = false) ->
  countEv f (trace (processQueue error tok st)) = countEv f (trace st).
Proof.
  intros Hf. destruct (processQueue_spec error tok st) as (_ & _ & _ & _ & -> & _).
  rewrite countEv_app, countEv_settling by assumption. lia.
Qed.

Lemma Inv_processQueue error tok st : Inv st -> Inv (processQueue error tok st).
Proof.
  intros HI. open_inv HI.
  destruct (processQueue_spec error tok st) as (E1 & E2 & E3 & E4 & E5 & E6).
  assert (Hlk : forall j t', tasks (processQueue error tok st) !! j = Some t' ->
            exists t, tasks st !! j = Some t /\
                      t' = wakeIn (verdict error tok) (failedQueue st) j t).
  { intros j t'. rewrite E6. destruct (tasks st !! j) as [t|]; simpl; [|discriminate].
    intros [= <-]. eauto. }
  assert (Hr : forall rid, reissues rid (processQueue error tok st) = reissues rid st).
  { intros rid. apply processQueue_counts. by intros []. }
  assert (Hp : forall m d, marksBy m d (processQueue error tok st) = marksBy m d st).
  { intros m d. apply processQueue_counts. intros ev Hev.
    destruct m, ev; try reflexivity; discriminate. }
  split.
  - intros d t' Ht' Hd. apply Hlk in Ht' as (t & Ht & ->).
    rewrite wakeIn_driving in Hd. rewrite E1. eauto.
  - intros d1 d2 t1' t2' H1 H2 D1 D2.
    apply Hlk in H1 as (t1 & H1 & ->). apply Hlk in H2 as (t2 & H2 & ->).
    rewrite wakeIn_driving in D1, D2. eauto.
  - rewrite E2. intros j Hj. by apply elem_of_nil in Hj.
  - rewrite E2. constructor.
  - intros j t' Ht' Hp'. apply Hlk in Ht' as (t & Ht & ->).
    rewrite wakeIn_rid, E4. apply (Htask j t Ht).
    intros Hf. apply Hp'. by apply wakeIn_finished.
  - rewrite E4. intros rid q d Hq Ha Hs.
    destruct (Hcall rid q d Hq Ha Hs) as (t & Ht & Hpc).
    rewrite E6, Ht. simpl. eexists. split; [reflexivity|]. by apply wakeIn_post.
  - rewrite E4. exact Huniq.
  - rewrite E4. exact Hmarked.
  - intros rid. rewrite Hr, E4. apply Hreissue.
  - intros m d. rewrite Hp, E6. specialize (Hposts m d).
    destruct (tasks st !! d) as [t|]; simpl; [|exact Hposts].
    rewrite wakeIn_before, wakeIn_past. exact Hposts.
Qed.

Lemma goto_lookup d p st j t' :
  tasks (goto d p st) !! j = Some t' ->
  (j = d /\ exists t, tasks st !! d = Some t /\ t' = setPc p t) \/
  (j <> d /\ tasks st !! j = Some t').
Proof.
  rewrite tasks_goto. case_decide as Hj.
  - subst j. destruct (tasks st !! d) as [t|]; simpl; [|discriminate].
    intros [= <-]. left. eauto.
  - intros H. right. split; congruence.
Qed.

Lemma editReq_lookup rid f st j q' :
  reqs (editReq rid f st) !! j = Some q' ->
  (j = rid /\ exists q, reqs st !! rid = Some q /\ q' = f q) \/
  (j <> rid /\ reqs st !! j = Some q').
Proof.
  rewrite reqs_editReq. case_decide as Hj.
  - subst j. destruct (reqs st !! rid) as [q|]; simpl; [|discriminate].
    intros [= <-]. left. eauto.
  - intros H. right. split; congruence.
Qed.

(** A driver moves on to a later [await] of the same cycle, and says so. *)
Lemma Inv_advance st d t p ev :
  Inv st -> tasks st !! d = Some t -> driving (pc t) = true -> driving p = true ->
  p = AwaitPost \/ NoCall st d ->
  (forall rid, isReissueOf rid ev = false) ->
  (forall m d', marks m d' ev = true ->
     d' = d /\ before m (pc t) = true /\ before m p = false) ->
  (forall m, marks m d ev = false ->
     (before m p = true -> before m (pc t) = true) /\
     (past m p = true -> past m (pc t) = true)) ->
  Inv (goto d p (emit ev st)).
Proof.
  intros HI Ht Hd Hp Hno Hre Hmark Hkeep. open_inv HI.
  split; try (simpl; assumption).
  - intros j t' Ht' _. apply (Hflag d t Ht Hd).
  - intros d1 d2 t1 t2 H1 H2 D1 D2.
    apply goto_lookup in H1 as [(-> & _)|(N1 & H1)];
      apply goto_lookup in H2 as [(-> & _)|(N2 & H2)]; eauto.
  - intros j Hj. destruct (Hqueue j Hj) as (t0 & Ht0 & Hp0).
    exists t0. split; [|exact Hp0].
    rewrite tasks_goto. case_decide; [|exact Ht0]. subst j.
    change (tasks (emit ev st)) with (tasks st).
    rewrite Ht in Ht0. injection Ht0 as <-. rewrite Hp0 in Hd. discriminate.
  - intros j t' Ht' Hp'.
    apply goto_lookup in Ht' as [(-> & t0 & Ht0 & ->)|(N & Ht')]; [|eauto].
    change (tasks (emit ev st)) with (tasks st) in Ht0.
    rewrite Ht in Ht0. injection Ht0 as <-. simpl. apply (Htask d t Ht).
    intros E. rewrite E in Hd. discriminate.
  - intros rid q d0 Hq Ha Hs.
    destruct (Hcall rid q d0 Hq Ha Hs) as (t0 & Ht0 & Hp0).
    rewrite tasks_goto. change (tasks (emit ev st)) with (tasks st).
    case_decide as Hd0; [|eauto]. subst d0. rewrite Ht. simpl.
    destruct Hno as [->|Hno]; [eauto|].
    exfalso. apply Hs. eapply Hno; eauto.
  - intros rid. change (reqs (goto d p (emit ev st))) with (reqs st).
    change (reissues rid (goto d p (emit ev st))) with (reissues rid (emit ev st)).
    rewrite reissues_emit, Hre, Nat.add_0_r. apply Hreissue.
  - intros m d0. change (marksBy m d0 (goto d p (emit ev st)))
      with (marksBy m d0 (emit ev st)).
    rewrite marksBy_emit, tasks_goto. change (tasks (emit ev st)) with (tasks st).
    pose proof (Hposts m d0) as Hold.
    destruct (marks m d0 ev) eqn:Hm.
    + apply Hmark in Hm as (-> & Hb & Hb').
      rewrite decide_True, Ht in * by reflexivity. simpl.
      destruct Hold as (_ & Hzero & _). rewrite (Hzero Hb), Hb'.
      split; [lia|]. split; [discriminate|reflexivity].
    + rewrite Nat.add_0_r. case_decide; [|exact Hold]. subst d0.
      rewrite Ht in *. simpl. destruct Hold as (Hle & Hzero & Hone').
      destruct (Hkeep m Hm) as [K1 K2]. auto.
Qed.

(** The promise of a request settles. *)
Lemma Inv_answer st rid :
  Inv st ->
  (forall j t, tasks st !! j = Some t -> t_rid t = rid -> pc t = Finished) ->
  Inv (editReq rid (setStage Answered) st).
Proof.
  intros HI Hfin. open_inv HI.
  split; try (simpl; assumption).
  - intros j t Ht Hp. simpl in Ht. destruct (Htask j t Ht Hp) as (q & Hq & Hs).
    exists q. split; [|exact Hs].
    rewrite reqs_editReq, decide_False; [exact Hq|].
    intros ->. apply Hp. eauto.
  - intros r q' d Hq' Ha Hs. simpl.
    apply editReq_lookup in Hq' as [(-> & q & _ & ->)|(N & Hq')]; [by destruct Hs|].
    eauto.
  - intros r1 r2 q1 q2 d H1 H2 A1 A2 S1 S2.
    apply editReq_lookup in H1 as [(-> & q & _ & ->)|(N1 & H1)]; [by destruct S1|].
    apply editReq_lookup in H2 as [(-> & q & _ & ->)|(N2 & H2)]; [by destruct S2|].
    eauto.
  - intros r q' j Hq' Hs.
    apply editReq_lookup in Hq' as [(-> & q & _ & ->)|(N & Hq')]; [discriminate|].
    eauto.
  - intros r. change (reissues r (editReq rid (setStage Answered) st)) with (reissues r st).
    destruct (Hreissue r) as [Hle Hm]. split; [exact Hle|].
    rewrite reqs_editReq. case_decide; [|exact Hm]. subst r.
    destruct (reqs st !! rid) as [q|]; simpl; [|exact Hm].
    split; [apply Hm|discriminate].
Qed.

Lemma NoCall_answer st rid q d :
  Inv st -> reqs st !! rid = Some q -> awaiter q = RefreshCall d -> stage q <> Answered ->
  NoCall (editReq rid (setStage Answered) st) d.
Proof.
  intros HI Hq Ha Hs r q' Hq' Ha'.
  apply editReq_lookup in Hq' as [(-> & q0 & _ & ->)|(N & Hq')]; [reflexivity|].
  destruct (stage q') eqn:Hs'; try reflexivity; exfalso; apply N;
    apply (inv_uniq st HI r rid q' q d); auto; rewrite Hs'; discriminate.
Qed.

Lemma NoCall_emit ev st d : NoCall st d -> NoCall (emit ev st) d.
Proof. exact id. Qed.

Lemma NoCall_processQueue error tok st d : NoCall st d -> NoCall (processQueue error tok st) d.
Proof.
  intros H rid q. destruct (processQueue_spec error tok st) as (_ & _ & _ & -> & _).
  apply H.
Qed.

(** Entering the [catch] block. *)
Lemma inTry_driving p : inTry p = true -> driving p = true.
Proof. destruct p; simpl; congruence. Qed.

Lemma inTry_before p : inTry p = true -> beforeCallback p = true.
Proof. destruct p; simpl; congruence. Qed.

Lemma Inv_catchBlock st d t err :
  Inv st -> tasks st !! d = Some t -> inTry (pc t) = true -> NoCall st d ->
  Inv (catchBlock d err st).
Proof.
  intros HI Ht Hin Hno. unfold catchBlock.
  pose proof (inTry_driving _ Hin) as Hd.
  destruct (processQueue_spec err VNull st) as (_ & _ & _ & _ & _ & E6).
  eapply Inv_advance with (t := wakeIn (verdict err VNull) (failedQueue st) d t);
    try reflexivity.
  - by apply Inv_processQueue.
  - rewrite E6, Ht. reflexivity.
  - rewrite wakeIn_driving. exact Hd.
  - right. apply NoCall_processQueue, Hno.
  - intros [] d'; discriminate.
  - intros m _. rewrite wakeIn_before. split; [|by destruct m].
    destruct m; [discriminate|]. intros _. by apply inTry_before.
Qed.

Lemma Inv_afterPost o st d t data :
  Inv st -> tasks st !! d = Some t -> pc t = AwaitPost -> NoCall st d ->
  Inv (afterPost o d data st).
Proof.
  intros HI Ht Hp Hno. unfold afterPost.
  destruct (responseAdapterOf o data) as [e|[newToken newRefreshToken]].
  - eapply Inv_catchBlock; eauto. by rewrite Hp.
  - eapply Inv_advance with (t := t); try reflexivity; try assumption; auto.
    + by rewrite Hp.
    + intros [] d'; discriminate.
    + intros m _. rewrite Hp. by destruct m.
Qed.

Lemma Inv_settleReq o st rid q r :
  Inv st -> reqs st !! rid = Some q -> stage q <> Answered ->
  (forall j t, tasks st !! j = Some t -> t_rid t = rid -> pc t = Finished) ->
  Inv (settleReq o rid r st).
Proof.
  intros HI Hq Hs Hfin. unfold settleReq. rewrite Hq.
  assert (H1 : Inv (emit (EvSettle rid r) (editReq rid (setStage Answered) st))).
  { apply Inv_emit; [reflexivity|]. by apply Inv_answer. }
  destruct (awaiter q) as [|d] eqn:Ha; [exact H1|].
  unfold pcOf. simpl.
  destruct (tasks st !! d) as [t|] eqn:Ht; simpl; [|exact H1].
  destruct (pc t) eqn:Hp; try exact H1.
  assert (Hno : NoCall (emit (EvSettle rid r) (editReq rid (setStage Answered) st)) d).
  { apply NoCall_emit. eapply NoCall_answer; eauto. }
  destruct r as [e|data].
  - eapply Inv_catchBlock; eauto. by rewrite Hp.
  - eapply Inv_afterPost; eauto.
Qed.

(** An invocation returns. *)
Lemma Inv_finish st tid t :
  Inv st -> tasks st !! tid = Some t -> pc t <> AwaitQueued -> NoCall st tid ->
  Inv (goto tid Finished st).
Proof.
  intros HI Ht Hnq Hno. open_inv HI.
  split; try (simpl; assumption).
  - intros j t' Ht' Hd.
    apply goto_lookup in Ht' as [(-> & t0 & _ & ->)|(N & Ht')]; [discriminate|].
    apply (Hflag j t' Ht' Hd).
  - intros d1 d2 t1 t2 H1 H2 D1 D2.
    apply goto_lookup in H1 as [(-> & t0 & _ & ->)|(N1 & H1)]; [discriminate|].
    apply goto_lookup in H2 as [(-> & t0 & _ & ->)|(N2 & H2)]; [discriminate|].
    eauto.
  - intros j Hj. destruct (Hqueue j Hj) as (t0 & Ht0 & Hp0).
    exists t0. split; [|exact Hp0].
    rewrite tasks_goto. case_decide; [|exact Ht0]. subst j. congruence.
  - intros j t' Ht' Hp'.
    apply goto_lookup in Ht' as [(-> & t0 & _ & ->)|(N & Ht')]; [by destruct Hp'|].
    apply (Htask j t' Ht' Hp').
  - intros rid q d0 Hq Ha Hs.
    destruct (Hcall rid q d0 Hq Ha Hs) as (t0 & Ht0 & Hp0).
    destruct (decide (d0 = tid)) as [->|N].
    + exfalso. apply Hs. eapply Hno; eauto.
    + exists t0. rewrite tasks_goto, decide_False by congruence. auto.
  - intros m d0. change (marksBy m d0 (goto tid Finished st)) with (marksBy m d0 st).
    specialize (Hposts m d0). rewrite tasks_goto. case_decide; [|exact Hposts].
    subst d0. rewrite Ht in *. simpl. split; [tauto|]. destruct m; split; discriminate.
Qed.

Lemma reissue_eq st rid q :
  reqs st !! rid = Some q ->
  reissue rid st = emit (EvReissue rid (cfg q)) (editReq rid (handBack (defaultAuthorization st)) st).
Proof. intros Hq. unfold reissue. rewrite Hq. reflexivity. Qed.

(** A request held by a returned invocation goes back to [axiosInstance]. *)
Lemma Inv_reissue st rid q j :
  Inv st -> reqs st !! rid = Some q -> stage q = Intercepted j ->
  (forall i t, tasks st !! i = Some t -> t_rid t = rid -> pc t = Finished) ->
  Inv (reissue rid st).
Proof.
  intros HI Hq Hs Hfin. rewrite (reissue_eq st rid q Hq). open_inv HI.
  split; try (simpl; assumption).
  - intros i t Ht Hp. destruct (Htask i t Ht Hp) as (q0 & Hq0 & Hs0).
    exists q0. split; [|exact Hs0].
    change (reqs (editReq rid (handBack (defaultAuthorization st)) st) !! t_rid t = Some q0).
    rewrite reqs_editReq, decide_False; [exact Hq0|].
    intros ->. apply Hp. eauto.
  - intros r q' d Hq' Ha Hs'.
    change (tasks (emit _ (editReq _ _ st))) with (tasks st).
    apply editReq_lookup in Hq' as [(-> & q0 & Hq0 & ->)|(N & Hq')].
    + apply (Hcall rid q0 d Hq0 Ha). rewrite Hq in Hq0. injection Hq0 as <-.
      rewrite Hs. discriminate.
    + eauto.
  - intros r1 r2 q1 q2 d H1 H2 A1 A2 S1 S2.
    assert (Hold : forall r q', reqs (editReq rid (handBack (defaultAuthorization st)) st) !! r = Some q' ->
              exists q0, reqs st !! r = Some q0 /\ awaiter q0 = awaiter q' /\
                         (stage q' <> Answered -> stage q0 <> Answered)).
    { intros r q' Hq'.
      apply editReq_lookup in Hq' as [(-> & q0 & Hq0 & ->)|(N & Hq')].
      - exists q0. split; [exact Hq0|]. split; [reflexivity|]. intros _.
        rewrite Hq in Hq0. injection Hq0 as <-. rewrite Hs. discriminate.
      - exists q'. auto. }
    apply Hold in H1 as (p1 & H1 & E1 & F1). apply Hold in H2 as (p2 & H2 & E2 & F2).
    apply (Huniq r1 r2 p1 p2 d); auto; congruence.
  - intros r q' i Hq' Hs'.
    apply editReq_lookup in Hq' as [(-> & q0 & _ & ->)|(N & Hq')]; [discriminate|].
    eauto.
  - intros r. rewrite reissues_emit.
    change (reissues r (editReq rid (handBack (defaultAuthorization st)) st)) with (reissues r st).
    change (reqs (emit _ (editReq rid (handBack (defaultAuthorization st)) st))) with
      (reqs (editReq rid (handBack (defaultAuthorization st)) st)).
    destruct (Hreissue r) as [Hle Hm]. rewrite reqs_editReq. simpl.
    destruct (Nat.eqb_spec rid r) as [->|N].
    + rewrite decide_True by reflexivity. rewrite Hq in *. simpl.
      destruct Hm as [_ Hm]. rewrite (Hm j Hs).
      split; [lia|]. split; [|discriminate].
      intros E. rewrite (Hmarked r q j Hq Hs) in E. discriminate.
    + rewrite decide_False by assumption. rewrite Nat.add_0_r. auto.
  - intros m d. rewrite marksBy_emit.
    replace (marks m d (EvReissue rid (cfg q))) with false by (by destruct m).
    rewrite Nat.add_0_r. apply Hposts.
Qed.

Lemma goto_reissue tid p rid st :
  goto tid p (reissue rid st) = reissue rid (goto tid p st).
Proof. unfold reissue. simpl. destruct (reqs st !! rid); reflexivity. Qed.

(** After [tid] has returned nothing unfinished holds its request. *)
Lemma finished_holder st tid t :
  Inv st -> tasks st !! tid = Some t -> pc t <> Finished ->
  forall i t', tasks (goto tid Finished st) !! i = Some t' ->
               t_rid t' = t_rid t -> pc t' = Finished.
Proof.
  intros HI Ht Hp i t' Ht' Hr.
  apply goto_lookup in Ht' as [(-> & t0 & _ & ->)|(N & Ht')]; [reflexivity|].
  destruct (pc t') eqn:E; try reflexivity; exfalso; apply N;
    destruct (inv_task st HI i t' Ht') as (q & Hq & Hs); try (rewrite E; discriminate);
    destruct (inv_task st HI tid t Ht Hp) as (q0 & Hq0 & Hs0);
    rewrite Hr, Hq0 in Hq; injection Hq as <-; congruence.
Qed.

Lemma Inv_retryOriginal st tid t :
  Inv st -> tasks st !! tid = Some t -> pc t <> Finished -> pc t <> AwaitQueued ->
  NoCall st tid -> Inv (retryOriginal tid st).
Proof.
  intros HI Ht Hp Hnq Hno. unfold retryOriginal. rewrite Ht, goto_reissue.
  destruct (inv_task st HI tid t Ht Hp) as (q & Hq & Hs).
  eapply Inv_reissue; eauto using Inv_finish, finished_holder.
Qed.

Lemma Inv_rejectWith o st tid t e :
  Inv st -> tasks st !! tid = Some t -> pc t <> Finished -> pc t <> AwaitQueued ->
  NoCall st tid -> Inv (rejectWith o tid e st).
Proof.
  intros HI Ht Hp Hnq Hno. unfold rejectWith. rewrite Ht.
  destruct (inv_task st HI tid t Ht Hp) as (q & Hq & Hs).
  eapply Inv_settleReq; eauto using Inv_finish, finished_holder.
  rewrite Hs. discriminate.
Qed.

Lemma spawn_lookup rid p st j t' :
  tasks (spawn rid p st) !! j = Some t' ->
  (tasks st !! j = Some t') \/
  (j = length (tasks st) /\ tasks st !! j = None /\ t' = {| t_rid := rid; pc := p |}).
Proof.
  rewrite tasks_spawn. destruct (tasks st !! j) as [t|]; [by left|].
  case_decide; [|discriminate]. intros [= <-]. by right.
Qed.

Lemma spawn_old rid p st j t :
  tasks st !! j = Some t -> tasks (spawn rid p st) !! j = Some t.
Proof. intros H. rewrite tasks_spawn, H. reflexivity. Qed.

Lemma Inv_spawn st rid q p :
  Inv st -> reqs st !! rid = Some q -> stage q = Sent \/ stage q = Handed ->
  _retry (cfg q) = false ->
  (driving p = true -> isRefreshing st = true /\ Idle st) ->
  (forall m, past m p = false) ->
  Inv (spawn rid p (editReq rid (hold (length (tasks st))) st)).
Proof.
  intros HI Hq Hs Hr Hdrv Hnp. open_inv HI.
  set (tid := length (tasks st)).
  set (st1 := editReq rid (hold tid) st).
  assert (Hback : forall r q', reqs st1 !! r = Some q' ->
            exists q0, reqs st !! r = Some q0 /\ awaiter q0 = awaiter q' /\
                       (stage q' <> Answered -> stage q0 <> Answered) /\
                       (r <> rid -> q' = q0)).
  { intros r q' Hq'.
    apply editReq_lookup in Hq' as [(-> & q0 & Hq0 & ->)|(N & Hq')].
    - exists q0. repeat split; auto; [|congruence].
      intros _. rewrite Hq in Hq0. injection Hq0 as <-.
      destruct Hs as [Hs|Hs]; rewrite Hs; discriminate.
    - exists q'. auto. }
  split.
  - intros d t Ht Hd. change (isRefreshing st = true).
    apply spawn_lookup in Ht as [Ht|(_ & _ & ->)]; [eauto|]. by apply Hdrv.
  - intros d1 d2 t1 t2 H1 H2 D1 D2.
    apply spawn_lookup in H1 as [H1|(-> & _ & ->)];
      apply spawn_lookup in H2 as [H2|(-> & _ & ->)]; try reflexivity.
    + eauto.
    + destruct (Hdrv D2) as [_ Hidle]. rewrite (Hidle d1 t1 H1) in D1. discriminate.
    + destruct (Hdrv D1) as [_ Hidle]. rewrite (Hidle d2 t2 H2) in D2. discriminate.
  - intros j Hj. destruct (Hqueue j Hj) as (t & Ht & Hp).
    exists t. split; [|exact Hp]. by apply spawn_old.
  - exact Hnodup.
  - intros j t Ht Hp. change (reqs (spawn rid p st1)) with (reqs st1).
    apply spawn_lookup in Ht as [Ht|(-> & _ & ->)].
    + destruct (Htask j t Ht Hp) as (q0 & Hq0 & Hs0). exists q0. split; [|exact Hs0].
      subst st1. rewrite reqs_editReq, decide_False; [exact Hq0|].
      intros ->. rewrite Hq in Hq0. injection Hq0 as <-. destruct Hs; congruence.
    + cbn [t_rid]. subst st1. rewrite reqs_editReq, decide_True, Hq by reflexivity.
      simpl. eauto.
  - intros r q' d Hq' Ha Hs'. apply Hback in Hq' as (q0 & Hq0 & Ea & Es & _).
    destruct (Hcall r q0 d Hq0) as (t & Ht & Hp); [congruence|auto|].
    exists t. split; [|exact Hp]. by apply spawn_old.
  - intros r1 r2 q1 q2 d H1 H2 A1 A2 S1 S2.
    apply Hback in H1 as (p1 & H1 & E1 & F1 & _).
    apply Hback in H2 as (p2 & H2 & E2 & F2 & _).
    apply (Huniq r1 r2 p1 p2 d); auto; congruence.
  - intros r q' j Hq' Hs'.
    change (reqs (spawn rid p st1)) with (reqs st1) in Hq'.
    apply editReq_lookup in Hq' as [(-> & q0 & _ & ->)|(N & Hq')]; [reflexivity|].
    eauto.
  - intros r. change (reissues r (spawn rid p st1)) with (reissues r st).
    change (reqs (spawn rid p st1)) with (reqs st1).
    destruct (Hreissue r) as [Hle Hm]. split; [exact Hle|].
    subst st1. rewrite reqs_editReq. case_decide; [|exact Hm]. subst r.
    rewrite Hq in *. simpl. destruct Hm as [Hm _]. specialize (Hm Hr). auto.
  - intros m d. change (marksBy m d (spawn rid p st1)) with (marksBy m d st).
    specialize (Hposts m d). rewrite tasks_spawn. change (tasks st1) with (tasks st).
    destruct (tasks st !! d) as [t|]; [exact Hposts|].
    case_decide; [|exact Hposts]. simpl. rewrite Hnp.
    split; [lia|]. split; [intros _; apply Hposts|discriminate].
Qed.

Lemma Inv_push st j t :
  Inv st -> tasks st !! j = Some t -> pc t = AwaitQueued -> j ∉ failedQueue st ->
  Inv (setQueue (failedQueue st ++ [j]) st).
Proof.
  intros HI Ht Hp Hni. open_inv HI. split; try (simpl; assumption).
  - intros i Hi. change (i ∈ failedQueue st ++ [j]) in Hi.
    apply elem_of_app in Hi as [Hi|Hi]; [eauto|].
    apply list_elem_of_singleton in Hi as ->. eauto.
  - change (NoDup (failedQueue st ++ [j])). apply list.NoDup_app. split; [exact Hnodup|].
    split; [|apply NoDup_singleton].
    intros i Hi ->%list_elem_of_singleton. contradiction.
Qed.

Lemma Inv_raise st : Inv st -> Inv (setRefreshing true st).
Proof. intros HI. open_inv HI. split; try (simpl; assumption). reflexivity. Qed.

Lemma Idle_flag st : Inv st -> isRefreshing st = false -> Idle st.
Proof.
  intros HI Hf j t Ht. destruct (driving (pc t)) eqn:E; [|reflexivity].
  rewrite (inv_flag st HI j t Ht E) in Hf. discriminate.
Qed.

Lemma Idle_raise st : Idle st -> Idle (setRefreshing true st).
Proof. exact id. Qed.

Lemma Inv_onRejected st rid q status :
  Inv st -> reqs st !! rid = Some q -> stage q = Sent \/ stage q = Handed ->
  Inv (fst (onRejected rid status st)).
Proof.
  intros HI Hq Hs. unfold onRejected. rewrite Hq.
  destruct (is401 status && negb (_retry (cfg q))) eqn:Hc; [|exact HI].
  apply andb_prop in Hc as [_ Hr]. apply negb_true_iff in Hr.
  change (isRefreshing (editReq rid _ st)) with (isRefreshing st).
  destruct (isRefreshing st) eqn:Hf; simpl.
  - set (tid := length (tasks st)).
    change (Inv (setQueue (failedQueue (spawn rid AwaitQueued (editReq rid (hold tid) st))
                             ++ [tid])
                   (spawn rid AwaitQueued (editReq rid (hold tid) st)))).
    apply Inv_push with (t := {| t_rid := rid; pc := AwaitQueued |}).
    + apply (Inv_spawn st rid q AwaitQueued); auto; [discriminate|by intros []].
    + rewrite tasks_spawn. change (tasks (editReq rid (hold tid) st)) with (tasks st).
      rewrite (proj2 (lookup_ge_None (tasks st) tid)) by (subst tid; lia).
      rewrite decide_True by reflexivity. reflexivity.
    + reflexivity.
    + intros Hin. destruct (inv_queue st HI tid Hin) as (t & Ht & _).
      apply lookup_lt_Some in Ht. subst tid. lia.
  - change (Inv (emit (EvGetRefreshToken (length (tasks st)))
                   (spawn rid AwaitGetRefreshToken
                      (editReq rid (hold (length (tasks (setRefreshing true st))))
                         (setRefreshing true st))))).
    apply Inv_emit; [reflexivity|].
    apply (Inv_spawn (setRefreshing true st) rid q AwaitGetRefreshToken);
      auto using Inv_raise; [|by intros []].
    intros _. split; [reflexivity|]. by apply Idle_raise, Idle_flag.
Qed.

(** The handler rejects at line 183 without having touched anything. *)
Lemma onRejected_Rejects rid status st st1 e :
  onRejected rid status st = (st1, Rejects e) -> st1 = st /\ e = TAxios rid status.
Proof.
  unfold onRejected. destruct (reqs st !! rid) as [q|]; [|by intros [= <- <-]].
  destruct (is401 status && negb (_retry (cfg q))); [|by intros [= <- <-]].
  match goal with |- context [if ?b then _ else _] => destruct b end; discriminate.
Qed.

(** On a rejection of the request interceptor the handler either rejects, the
    state untouched, or takes the error for the 401 of its own request. *)
Lemma onRejectedValue_cases rid e st st1 h :
  onRejectedValue rid e st = Some (st1, h) ->
  (st1 = st /\ exists e', h = Rejects e') \/
  (exists status, e = TAxios rid status /\ onRejected rid status st = (st1, h)).
Proof.
  unfold onRejectedValue. destruct e as [r status|m| |[| |s]];
    try (intros [= <- <-]; left; eauto).
  case_decide as Hr.
  - subst r. intros [= H]. right. eauto.
  - destruct (is401 status); [|intros [= <- <-]; left; eauto].
    destruct (reqs st !! r) as [q|]; [|discriminate].
    destruct (_retry (cfg q)); [|discriminate]. intros [= <- <-]. left. eauto.
Qed.

(** The handler suspends: the request is marked and its invocation queued,
    or made the driver. *)
Lemma onRejected_Suspends rid status st st1 :
  onRejected rid status st = (st1, Suspends) ->
  exists q,
    reqs st !! rid = Some q /\ is401 status = true /\ _retry (cfg q) = false /\
    st1 = if isRefreshing st
          then spawn rid AwaitQueued
                 (setQueue (failedQueue st ++ [length (tasks st)])
                    (editReq rid (hold (length (tasks st))) st))
          else spawn rid AwaitGetRefreshToken
                 (emit (EvGetRefreshToken (length (tasks st)))
                    (setRefreshing true (editReq rid (hold (length (tasks st))) st))).
Proof.
  unfold onRejected. destruct (reqs st !! rid) as [q|]; [|discriminate].
  destruct (is401 status && negb (_retry (cfg q))) eqn:Hc; [|discriminate].
  apply andb_prop in Hc as [H4 Hr]. apply negb_true_iff in Hr.
  change (isRefreshing (editReq rid _ st)) with (isRefreshing st).
  intros H. exists q. repeat split; try assumption.
  destruct (isRefreshing st); by injection H as <-.
Qed.

(** A rejection of [getTokenFn]: the request is settled, or its invocation
    suspended. *)
Lemma step_getToken_failed o st rid e st' :
  step o st (GetTokenDone rid (inl e)) = Some st' ->
  exists q,
    reqs st !! rid = Some q /\ stage q = Handed /\
    ((exists e', st' = settleReq o rid (inl e') st) \/
     (exists status, onRejected rid status st = (st', Suspends))).
Proof.
  intros Hstep. simpl in Hstep.
  destruct (reqs st !! rid) as [[c a s]|] eqn:Hq; [|discriminate].
  destruct s; try discriminate. simpl in Hstep.
  exists {| cfg := c; awaiter := a; stage := Handed |}.
  split; [reflexivity|]. split; [reflexivity|].
  destruct (onRejectedValue rid e st) as [[st1 h]|] eqn:Hv; [|discriminate].
  apply onRejectedValue_cases in Hv as [[-> (e' & ->)]|(status & -> & Hon)].
  - injection Hstep as <-. left. eauto.
  - destruct h as [e'|]; injection Hstep as <-.
    + apply onRejected_Rejects in Hon as [-> _]. left. eauto.
    + right. eauto.
Qed.

Lemma Inv_onRejectedValue st rid q e st1 h :
  Inv st -> reqs st !! rid = Some q -> stage q = Handed ->
  onRejectedValue rid e st = Some (st1, h) -> Inv st1.
Proof.
  intros HI Hq Hs Hv.
  apply onRejectedValue_cases in Hv as [[-> _]|(status & -> & Hon)]; [exact HI|].
  pose proof (Inv_onRejected st rid q status HI Hq (or_intror Hs)) as H.
  by rewrite Hon in H.
Qed.

(** A new request enters [reqs]. *)
Lemma Inv_newReq st q :
  Inv st -> stage q = Handed ->
  (forall d, awaiter q = RefreshCall d ->
             NoCall st d /\ exists t, tasks st !! d = Some t /\ pc t = AwaitPost) ->
  Inv (setReqs (reqs st ++ [q]) st).
Proof.
  intros HI Hs Ha. open_inv HI.
  assert (Hlk : forall r q', (reqs st ++ [q]) !! r = Some q' ->
            reqs st !! r = Some q' \/ (r = length (reqs st) /\ q' = q)).
  { intros r q'. rewrite lookup_snoc_case. destruct (reqs st !! r); [by left|].
    case_decide; [|discriminate]. intros [= <-]. by right. }
  split; try (simpl; assumption).
  - intros j t Ht Hp. destruct (Htask j t Ht Hp) as (q0 & Hq0 & Hs0).
    exists q0. split; [|exact Hs0]. simpl. rewrite lookup_snoc_case, Hq0. reflexivity.
  - intros r q' d Hq' Ha' Hs'. apply Hlk in Hq' as [Hq'|(-> & ->)]; [eauto|].
    apply (Ha d Ha').
  - intros r1 r2 q1 q2 d H1 H2 A1 A2 S1 S2.
    apply Hlk in H1 as [H1|(-> & ->)]; apply Hlk in H2 as [H2|(-> & ->)];
      try reflexivity; [eauto| |].
    + destruct (Ha d A2) as [Hno _]. destruct S1. eauto.
    + destruct (Ha d A1) as [Hno _]. destruct S2. eauto.
  - intros r q' j Hq' Hs'. apply Hlk in Hq' as [Hq'|(-> & ->)]; [eauto|congruence].
  - intros r. change (reissues r (setReqs (reqs st ++ [q]) st)) with (reissues r st).
    destruct (Hreissue r) as [Hle Hm]. split; [exact Hle|].
    simpl. rewrite lookup_snoc_case. destruct (reqs st !! r); [exact Hm|].
    case_decide; [|exact Hm]. split; [auto|]. intros j Hj. congruence.
Qed.

(** Lines 138-142: the driver posts the refresh call. *)
Lemma Inv_post c st d t payload :
  Inv st -> tasks st !! d = Some t -> pc t = AwaitGetRefreshToken ->
  Inv (goto d AwaitPost
         (emit (EvPost d (length (reqs st)) payload)
            (setReqs (reqs st ++ [{| cfg := c; awaiter := RefreshCall d;
                                     stage := Handed |}]) st))).
Proof.
  intros HI Ht Hp.
  set (q := {| cfg := c; awaiter := RefreshCall d; stage := Handed |}).
  set (ev := EvPost d (length (reqs st)) payload).
  assert (Hno : NoCall st d) by (eapply Inv_NoCall; eauto; congruence).
  assert (H1 : Inv (goto d AwaitPost (emit ev st))).
  { eapply Inv_advance; eauto; try reflexivity.
    - by rewrite Hp.
    - intros [] d' Hm; [|discriminate]. apply Nat.eqb_eq in Hm as ->.
      rewrite Hp. auto.
    - intros [] Hm; [|by rewrite Hp].
      simpl in Hm. rewrite Nat.eqb_refl in Hm. discriminate. }
  change (Inv (setReqs (reqs (goto d AwaitPost (emit ev st)) ++ [q])
                 (goto d AwaitPost (emit ev st)))).
  apply Inv_newReq; [exact H1|reflexivity|].
  intros d' [= <-]. split; [exact Hno|].
  exists (setPc AwaitPost t). rewrite tasks_goto, decide_True by reflexivity.
  change (tasks (emit ev st)) with (tasks st). rewrite Ht. split; reflexivity.
Qed.

(** Line 173: the driver calls [onRefreshFailure]. *)
Lemma Inv_callback st d t err :
  Inv st -> tasks st !! d = Some t -> pc t = AwaitRemoveToken err ->
  Inv (goto d (AwaitOnRefreshFailure err) (emit (EvOnRefreshFailure d err) st)).
Proof.
  intros HI Ht Hp.
  eapply Inv_advance; eauto; try reflexivity.
  - by rewrite Hp.
  - right. eapply Inv_NoCall; eauto. congruence.
  - intros [] d' Hm; [discriminate|]. apply Nat.eqb_eq in Hm as ->.
    rewrite Hp. auto.
  - intros [] Hm; [by rewrite Hp|].
    simpl in Hm. rewrite Nat.eqb_refl in Hm. discriminate.
Qed.

Lemma requestInterceptor_retry o c tok : _retry (requestInterceptor o c tok) = _retry c.
Proof. unfold requestInterceptor. destruct (truthy tok && hasHeaders c); reflexivity. Qed.

(** The request interceptor lets a request go to the transport. *)
Lemma Inv_dispatch st rid q c' :
  Inv st -> reqs st !! rid = Some q -> stage q = Handed -> _retry c' = _retry (cfg q) ->
  Inv (editReq rid (fun q => setStage Sent (setCfg c' q)) st).
Proof.
  intros HI Hq Hs Hr. open_inv HI.
  set (f := fun q => setStage Sent (setCfg c' q)).
  assert (Hback : forall r q', reqs (editReq rid f st) !! r = Some q' ->
            exists q0, reqs st !! r = Some q0 /\ awaiter q0 = awaiter q' /\
                       _retry (cfg q0) = _retry (cfg q') /\
                       (stage q' <> Answered -> stage q0 <> Answered) /\
                       (forall j, stage q' = Intercepted j -> stage q0 = Intercepted j)).
  { intros r q' Hq'.
    apply editReq_lookup in Hq' as [(-> & q0 & Hq0 & ->)|(N & Hq')].
    - exists q0. rewrite Hq in Hq0. injection Hq0 as <-.
      repeat split; auto; [congruence|discriminate].
    - exists q'. auto. }
  split; try (simpl; assumption).
  - intros j t Ht Hp. destruct (Htask j t Ht Hp) as (q0 & Hq0 & Hs0).
    exists q0. split; [|exact Hs0].
    rewrite reqs_editReq, decide_False; [exact Hq0|]. intros ->. congruence.
  - intros r q' d Hq' Ha Hs'. apply Hback in Hq' as (q0 & Hq0 & Ea & _ & Es & _).
    apply (Hcall r q0 d Hq0); [congruence|auto].
  - intros r1 r2 q1 q2 d H1 H2 A1 A2 S1 S2.
    apply Hback in H1 as (p1 & H1 & E1 & _ & F1 & _).
    apply Hback in H2 as (p2 & H2 & E2 & _ & F2 & _).
    apply (Huniq r1 r2 p1 p2 d); auto; congruence.
  - intros r q' j Hq' Hs'. apply Hback in Hq' as (q0 & Hq0 & _ & Er & _ & Ei).
    rewrite <- Er. eauto.
  - intros r. change (reissues r (editReq rid f st)) with (reissues r st).
    destruct (Hreissue r) as [Hle Hm]. split; [exact Hle|].
    destruct (reqs (editReq rid f st) !! r) as [q'|] eqn:Hq'.
    + apply Hback in Hq' as (q0 & Hq0 & _ & Er & _ & Ei). rewrite Hq0 in Hm.
      rewrite <- Er. split; [apply Hm|]. intros j Hj. eapply Hm; eauto.
    + rewrite reqs_editReq in Hq'. case_decide.
      * destruct (reqs st !! r); [discriminate|exact Hm].
      * rewrite Hq' in Hm. exact Hm.
Qed.

Lemma tasks_reissue rid st : tasks (reissue rid st) = tasks st.
Proof. unfold reissue. destruct (reqs st !! rid); reflexivity. Qed.

Lemma Idle_finish st d t st' :
  Inv st -> tasks st !! d = Some t -> driving (pc t) = true ->
  (forall j, tasks st' !! j = tasks (goto d Finished st) !! j) ->
  Idle st'.
Proof.
  intros HI Ht Hd Heq j t' Ht'. rewrite Heq in Ht'.
  apply goto_lookup in Ht' as [(-> & t0 & _ & ->)|(N & Ht')]; [reflexivity|].
  destruct (driving (pc t')) eqn:E; [|reflexivity].
  destruct N. apply (inv_one st HI j d t' t); assumption.
Qed.

Lemma wakeIn_driver v q j t : driving (pc t) = true -> wakeIn v q j t = t.
Proof.
  intros Hd. unfold wakeIn. destruct v; [|reflexivity]. case_decide; [|reflexivity].
  unfold wake. destruct (pc t); try reflexivity. discriminate.
Qed.

Lemma Inv_successTail o st d t newToken :
  Inv st -> tasks st !! d = Some t -> driving (pc t) = true -> pc t <> AwaitPost ->
  Inv (successTail o d newToken st).
Proof.
  intros HI Ht Hd Hnp. unfold successTail. rewrite Ht.
  remember (editReq (t_rid t)
              (fun q => if hasHeaders (cfg q)
                        then setCfg (setAuthorization (bearer o newToken) (cfg q)) q
                        else q)
              (processQueue (TValue VNull) newToken (setDefault (bearer o newToken) st)))
    as st3 eqn:E3.
  assert (H3 : Inv st3).
  { subst st3. apply Inv_editCfg.
    - intros q _. destruct (hasHeaders (cfg q)); auto.
    - apply Inv_processQueue, Inv_setDefault, HI. }
  assert (Ht3 : tasks st3 !! d = Some t).
  { subst st3. change (tasks (editReq _ _ ?s)) with (tasks s).
    destruct (processQueue_spec (TValue VNull) newToken (setDefault (bearer o newToken) st))
      as (_ & _ & _ & _ & _ & ->).
    change (tasks (setDefault _ st)) with (tasks st). rewrite Ht. simpl.
    by rewrite wakeIn_driver. }
  clear E3.
  assert (Hlive : pc t <> Finished) by (intros E; rewrite E in Hd; discriminate).
  assert (Hnq : pc t <> AwaitQueued) by (intros E; rewrite E in Hd; discriminate).
  apply Inv_idle.
  - eapply Inv_retryOriginal; eauto using Inv_NoCall.
  - eapply Idle_finish; eauto. intros j. unfold retryOriginal. rewrite Ht3.
    rewrite !tasks_goto, tasks_reissue. reflexivity.
Qed.

Lemma Inv_failTail o st d t e :
  Inv st -> tasks st !! d = Some t -> driving (pc t) = true -> pc t <> AwaitPost ->
  Inv (failTail o d e st).
Proof.
  intros HI Ht Hd Hnp. unfold failTail, rejectWith.
  change (tasks (setRefreshing false st)) with (tasks st). rewrite Ht.
  change (goto d Finished (setRefreshing false st))
    with (setRefreshing false (goto d Finished st)).
  assert (Hlive : pc t <> Finished) by (intros E; rewrite E in Hd; discriminate).
  assert (Hnq : pc t <> AwaitQueued) by (intros E; rewrite E in Hd; discriminate).
  destruct (inv_task st HI d t Ht Hlive) as (q & Hq & Hs).
  eapply Inv_settleReq with (q := q).
  - apply Inv_idle; [eauto using Inv_finish, Inv_NoCall|].
    eapply Idle_finish; eauto.
  - exact Hq.
  - rewrite Hs. discriminate.
  - eapply finished_holder; eauto.
Qed.

Lemma Inv_resume o st tid t r :
  Inv st -> tasks st !! tid = Some t -> pc t = Woken r -> Inv (resume o tid r st).
Proof.
  intros HI Ht Hp.
  assert (Hlive : pc t <> Finished) by congruence.
  assert (Hnq : pc t <> AwaitQueued) by congruence.
  assert (Hno : NoCall st tid) by (eapply Inv_NoCall; eauto; congruence).
  unfold resume. destruct r as [err|tok]; [eauto using Inv_rejectWith|].
  rewrite Ht. destruct (reqs st !! t_rid t) as [q|] eqn:Hq; simpl; [|exact HI].
  destruct (hasHeaders (cfg q)); [|eauto using Inv_rejectWith].
  eapply Inv_retryOriginal with (t := t); auto.
  - apply Inv_editCfg; [|exact HI]. intros q0 Hq0.
    rewrite Hq in Hq0. injection Hq0 as <-. auto.
  - intros r q' Hq' Ha.
    apply editReq_lookup in Hq' as [(-> & q0 & Hq0 & ->)|(N & Hq')]; [|eauto].
    apply (Hno (t_rid t) q0 Hq0 Ha).
Qed.

Lemma Inv_afterGetRefreshToken o st d t got :
  Inv st -> tasks st !! d = Some t -> pc t = AwaitGetRefreshToken ->
  Inv (afterGetRefreshToken o d got st).
Proof.
  intros HI Ht Hp.
  assert (Hd : inTry (pc t) = true) by (by rewrite Hp).
  assert (Hno : NoCall st d) by (eapply Inv_NoCall; eauto; congruence).
  unfold afterGetRefreshToken.
  destruct got as [e|refreshToken]; [eauto using Inv_catchBlock|].
  destruct (negb (truthy refreshToken)); [eauto using Inv_catchBlock|].
  destruct (payloadAdapterOf o refreshToken) as [e|payload];
    [eauto using Inv_catchBlock|].
  eapply Inv_post; eauto.
Qed.

(** Every segment keeps the invariant. *)
Lemma Inv_step o st i st' : Inv st -> step o st i = Some st' -> Inv st'.
Proof.
  intros HI Hstep. destruct i as [c|rid got|rid r|d got|d failed|d failed|d failed|d failed|tid];
    simpl in Hstep.
  - injection Hstep as <-. apply Inv_newReq; auto. discriminate.
  - destruct (reqs st !! rid) as [[c a []]|] eqn:Hq; try discriminate.
    destruct got as [e|tok]; simpl in Hstep.
    + destruct (onRejectedValue rid e st) as [[st1 h]|] eqn:Hv; [|discriminate].
      pose proof (Inv_onRejectedValue st rid _ e st1 h HI Hq eq_refl Hv) as H1.
      destruct h as [e'|]; injection Hstep as <-; [|exact H1].
      apply onRejectedValue_cases in Hv as [[-> _]|(status & -> & Hon)];
        [|apply onRejected_Rejects in Hon as [-> _]];
        (eapply Inv_settleReq; eauto;
         intros j t Ht Hr; destruct (pc t) eqn:E; try reflexivity;
         destruct (inv_task st HI j t Ht) as (q0 & Hq0 & Hs0);
         try (rewrite E; discriminate);
         rewrite Hr, Hq in Hq0; injection Hq0 as <-; discriminate).
    + injection Hstep as <-. eapply Inv_dispatch; eauto. apply requestInterceptor_retry.
  - destruct (reqs st !! rid) as [q|] eqn:Hq; simpl in Hstep; [|discriminate].
    destruct (stage q) eqn:Hs; try discriminate.
    assert (Hfin : forall j t, tasks st !! j = Some t -> t_rid t = rid -> pc t = Finished).
    { intros j t Ht Hr. destruct (pc t) eqn:E; try reflexivity;
        destruct (inv_task st HI j t Ht) as (q0 & Hq0 & Hs0); try (rewrite E; discriminate);
        rewrite Hr, Hq in Hq0; injection Hq0 as <-; congruence. }
    destruct r as [status|data].
    + pose proof (Inv_onRejected st rid q status HI Hq (or_introl Hs)) as H1.
      unfold onRejected in *. rewrite Hq in *.
      destruct (is401 status && negb (_retry (cfg q))).
      * change (isRefreshing (editReq rid _ st)) with (isRefreshing st) in *.
        destruct (isRefreshing st); injection Hstep as <-; exact H1.
      * injection Hstep as <-. eapply Inv_settleReq; eauto. rewrite Hs. discriminate.
    + injection Hstep as <-. eapply Inv_settleReq; eauto. rewrite Hs. discriminate.
  - unfold pcOf in Hstep. destruct (tasks st !! d) as [t|] eqn:Ht; [|discriminate].
    simpl in Hstep. destruct (pc t) eqn:Hp; try discriminate.
    injection Hstep as <-. eapply Inv_afterGetRefreshToken; eauto.
  - unfold pcOf in Hstep. destruct (tasks st !! d) as [t|] eqn:Ht; [|discriminate].
    simpl in Hstep. destruct (pc t) eqn:Hp; try discriminate.
    assert (Hd : inTry (pc t) = true) by (by rewrite Hp).
    assert (Hno : NoCall st d) by (eapply Inv_NoCall; eauto; congruence).
    destruct failed as [e|]; injection Hstep as <-; [eauto using Inv_catchBlock|].
    eapply Inv_advance; eauto; try reflexivity.
    + by rewrite Hp.
    + intros [] d'; discriminate.
    + intros m _. rewrite Hp. by destruct m.
  - unfold pcOf in Hstep. destruct (tasks st !! d) as [t|] eqn:Ht; [|discriminate].
    simpl in Hstep. destruct (pc t) eqn:Hp; try discriminate.
    assert (Hd : inTry (pc t) = true) by (by rewrite Hp).
    assert (Hno : NoCall st d) by (eapply Inv_NoCall; eauto; congruence).
    destruct failed as [e|]; injection Hstep as <-; [eauto using Inv_catchBlock|].
    eapply Inv_successTail; eauto using inTry_driving. congruence.
  - unfold pcOf in Hstep. destruct (tasks st !! d) as [t|] eqn:Ht; [|discriminate].
    simpl in Hstep. destruct (pc t) eqn:Hp; try discriminate.
    assert (Hd : driving (pc t) = true) by (by rewrite Hp).
    assert (Hnp : pc t <> AwaitPost) by congruence.
    assert (Hno : NoCall st d) by (eapply Inv_NoCall; eauto).
    destruct failed as [e|]; [injection Hstep as <-; eauto using Inv_failTail|].
    destruct (onRefreshFailure o); injection Hstep as <-; [|eauto using Inv_failTail].
    eapply Inv_callback; eauto.
  - unfold pcOf in Hstep. destruct (tasks st !! d) as [t|] eqn:Ht; [|discriminate].
    simpl in Hstep. destruct (pc t) eqn:Hp; try discriminate.
    assert (Hd : driving (pc t) = true) by (by rewrite Hp).
    assert (Hnp : pc t <> AwaitPost) by congruence.
    destruct failed as [e|]; injection Hstep as <-; eauto using Inv_failTail.
  - unfold pcOf in Hstep. destruct (tasks st !! tid) as [t|] eqn:Ht; [|discriminate].
    simpl in Hstep. destruct (pc t) eqn:Hp; try discriminate.
    injection Hstep as <-. eapply Inv_resume; eauto.
Qed.

Theorem Reachable_Inv o st : Reachable o st -> Inv st.
Proof. induction 1; eauto using Inv_init, Inv_step. Qed.

(** ** Runs *)


Lemma run_cons o st i ins :
  run o st (i :: ins) =
  match step o st i with
  | Some st' => run o st' ins
  | None => None
  end.
Proof. reflexivity. Qed.

Lemma run_Reachable o ins : forall st st',
  Reachable o st -> run o st ins = Some st' -> Reachable o st'.
Proof.
  induction ins as [|i ins IH]; intros st st' Hr Hrun; simpl in Hrun.
  - by injection Hrun as <-.
  - destruct (step o st i) as [st1|] eqn:E; [|discriminate].
    eapply IH; [|exact Hrun]. eapply reach_step; eauto.
Qed.

Lemma after_Reachable o ins st :
  run o init ins = Some st -> Reachable o (after o ins).
Proof.
  intros H. unfold after. rewrite H. simpl.
  eapply run_Reachable; [apply reach_init|exact H].
Qed.

(** * The request interceptor (C7, C10) *)




(** C10: the empty string is handled as an absent credential is: with the
    store answering [""], [null] or [undefined] the interceptor returns the
    descriptor it was given, and no Authorization header is added to it. *)
Theorem C10_empty_credential o config :
  onRequest o config (inr (VStr "")) = inr config /\
  onRequest o config (inr (VStr "")) = onRequest o config (inr VNull) /\
  onRequest o config (inr (VStr "")) = onRequest o config (inr VUndefined) /\
  (forall c', onRequest o config (inr (VStr "")) = inr c' ->
              authorizationOf c' = authorizationOf config) /\
  (forall st rid,
     step o st (GetTokenDone rid (inr (VStr ""))) = step o st (GetTokenDone rid (inr VNull)) /\
     forall st' q, step o st (GetTokenDone rid (inr (VStr ""))) = Some st' ->
                   reqs st !! rid = Some q ->
                   reqs st' !! rid = Some (setStage Sent q)).
Proof.
  repeat split; try reflexivity.
  - intros c' [= <-]. reflexivity.
  - intros st' q Hstep Hq. simpl in Hstep. rewrite Hq in Hstep.
    destruct q as [c a []]; try discriminate. simpl in Hstep.
    injection Hstep as <-. rewrite reqs_editReq, decide_True, Hq by reflexivity.
    reflexivity.
Qed.

(** The store answers [""] for a request handed to the client. *)
Lemma C10_witness :
  exists st',
    step defaults handedOver (GetTokenDone 0 (inr (VStr ""))) = Some st' /\
    reqs st' !! 0 = Some {| cfg := plain "/a"; awaiter := Caller; stage := Sent |}.
Proof.
  destruct (C10_empty_credential defaults (plain "/a")) as (_ & _ & _ & _ & Hsys).
  destruct (Hsys handedOver 0) as [_ Hreq].
  eexists. split; [reflexivity|].
  apply (Hreq _ {| cfg := plain "/a"; awaiter := Caller; stage := Handed |});
    reflexivity.
Defined.

(** * Errors that are not intercepted (C8) *)

Lemma is401_false status : status <> Some 401%Z -> is401 status = false.
Proof.
  destruct status as [s|]; simpl; [|reflexivity].
  intros H. apply Z.eqb_neq. congruence.
Qed.

(** C8: a response error whose status is not 401 (or that has no response),
    and a 401 of a request that already carries [_retry], leave the interceptor
    through line 183: the state is the one it started from, and the rejection
    is the error it was given.  For a request of outside code the whole segment
    only settles the promise: flag, queue, invocations, default header and
    request descriptor stay, no refresh call and no reissue appear. *)
Theorem C8_other_errors_pass o st rid q status :
  reqs st !! rid = Some q -> stage q = Sent ->
  status <> Some 401%Z \/ _retry (cfg q) = true ->
  onRejected rid status st = (st, Rejects (TAxios rid status)) /\
  (awaiter q = Caller ->
   exists st',
     step o st (Response rid (inl status)) = Some st' /\
     isRefreshing st' = isRefreshing st /\ failedQueue st' = failedQueue st /\
     tasks st' = tasks st /\ defaultAuthorization st' = defaultAuthorization st /\
     trace st' = trace st ++ [EvSettle rid (inl (TAxios rid status))] /\
     reqs st' !! rid = Some (setStage Answered q)).
Proof.
  intros Hq Hs Hc.
  assert (Hon : onRejected rid status st = (st, Rejects (TAxios rid status))).
  { unfold onRejected. rewrite Hq.
    destruct Hc as [Hc|Hc]; [rewrite (is401_false _ Hc)|rewrite Hc, andb_false_r];
      reflexivity. }
  split; [exact Hon|]. intros Ha.
  simpl. rewrite Hq. simpl. rewrite Hs, Hon.
  unfold settleReq. rewrite Hq, Ha.
  eexists. split; [reflexivity|]. simpl.
  rewrite list_lookup_alter, decide_True, Hq by reflexivity.
  repeat split; reflexivity.
Qed.

(** Scenario F: a 500. *)
Lemma C8_witness :
  onRejected 0 (Some 500%Z) (inFlight (plain "/a")) =
  (inFlight (plain "/a"), Rejects (TAxios 0 (Some 500%Z))).
Proof.
  apply (C8_other_errors_pass defaults (inFlight (plain "/a")) 0
           {| cfg := plain "/a"; awaiter := Caller; stage := Sent |} (Some 500%Z)
           eq_refl eq_refl).
  left. discriminate.
Defined.

(** * At most one retry (C3) *)

(** C3: in every reachable state each request has been handed back to the
    client by the interceptor once at most; a request that was handed back
    carries [_retry]; and the 401 of a request that carries [_retry] leaves
    the interceptor at once, with the state untouched (no refresh, no
    queueing, no reissue) and the error it came with. *)
Theorem C3_retried_at_most_once o st :
  Reachable o st ->
  (forall rid, reissues rid st <= 1) /\
  (forall rid q, reqs st !! rid = Some q -> 1 <= reissues rid st ->
                 _retry (cfg q) = true) /\
  (forall rid q, reqs st !! rid = Some q -> _retry (cfg q) = true ->
                 onRejected rid (Some 401%Z) st =
                 (st, Rejects (TAxios rid (Some 401%Z)))).
Proof.
  intros HR. apply Reachable_Inv in HR. repeat split.
  - intros rid. apply (inv_reissue st HR rid).
  - intros rid q Hq Hn. destruct (inv_reissue st HR rid) as [_ Hm].
    rewrite Hq in Hm. destruct (_retry (cfg q)); [reflexivity|].
    destruct Hm as [Hm _]. specialize (Hm eq_refl). lia.
  - intros rid q Hq Hr. unfold onRejected. rewrite Hq, Hr. reflexivity.
Qed.

Lemma C3_witness :
  reissues 0 (after defaults scenarioC) = 1 /\
  (forall rid, reissues rid (after defaults scenarioC) <= 1).
Proof.
  split; [vm_compute; reflexivity|].
  apply (C3_retried_at_most_once defaults (after defaults scenarioC)).
  apply (after_Reachable defaults scenarioC (after defaults scenarioC)).
  vm_compute. reflexivity.
Defined.

(** * The refresh call answered with a 401 (C4) *)

(** The run in which C4 fails: the 401 of the refresh call goes through the
    same branch as any other 401.  The flag is set, so the invocation is pushed
    on the queue and waits for the very refresh that awaits it. *)
Lemma C4_counterexample :
  let st := after defaults refreshUnauthorized in
  run defaults init refreshUnauthorized = Some st /\
  (url <$> (cfg <$> reqs st !! 1)) = Some (refreshTokenEndpoint defaults) /\
  (awaiter <$> reqs st !! 1) = Some (RefreshCall 0) /\
  failedQueue st = [1] /\
  tasks st !! 1 = Some {| t_rid := 1; pc := AwaitQueued |} /\
  pcOf st 0 = Some AwaitPost.
Proof. vm_compute. repeat split; reflexivity. Qed.

(** C4 on the code: the 401 answer to the refresh call takes the branch of
    lines 112-126 like any other 401.  The flag is set while the call is
    outstanding, so the interceptor marks the call with [_retry] and pushes its
    invocation on the queue; nothing else happens in the segment (no
    [getRefreshTokenFn] call, no second refresh call, no [removeTokenFn]), and
    the driver stays at line 139, awaiting the call that now waits for the
    driver to drain the queue. *)
Theorem C4_refresh_call_unauthorized o st p q d :
  Reachable o st ->
  reqs st !! p = Some q -> awaiter q = RefreshCall d -> stage q = Sent ->
  _retry (cfg q) = false ->
  exists st',
    step o st (Response p (inl (Some 401%Z))) = Some st' /\
    isRefreshing st = true /\ isRefreshing st' = true /\
    trace st' = trace st /\
    failedQueue st' = failedQueue st ++ [length (tasks st)] /\
    tasks st' = tasks st ++ [{| t_rid := p; pc := AwaitQueued |}] /\
    pcOf st d = Some AwaitPost /\ pcOf st' d = Some AwaitPost /\
    reqs st' !! p = Some (hold (length (tasks st)) q).
Proof.
  intros HR Hq Ha Hs Hr. apply Reachable_Inv in HR.
  destruct (inv_call st HR p q d Hq Ha) as (t & Ht & Hp); [rewrite Hs; discriminate|].
  assert (Hf : isRefreshing st = true).
  { apply (inv_flag st HR d t Ht). by rewrite Hp. }
  simpl. rewrite Hq. simpl. rewrite Hs. unfold onRejected. rewrite Hq, Hr. simpl.
  rewrite Hf. eexists. split; [reflexivity|]. simpl.
  repeat split; try assumption; try reflexivity.
  - unfold pcOf. rewrite Ht. simpl. congruence.
  - unfold pcOf. simpl. rewrite lookup_app_l by (by eapply lookup_lt_Some).
    rewrite Ht. simpl. congruence.
  - rewrite list_lookup_alter, decide_True, Hq by reflexivity. reflexivity.
Qed.

Lemma C4_witness :
  exists st',
    step defaults refreshInFlight (Response 1 (inl (Some 401%Z))) = Some st' /\
    trace st' = trace refreshInFlight /\ failedQueue st' = [1].
Proof.
  destruct (C4_refresh_call_unauthorized defaults refreshInFlight 1
              {| cfg := setAuthorization "Bearer abc" (refreshConfig defaults);
                 awaiter := RefreshCall 0; stage := Sent |} 0)
    as (st' & Hstep & _ & _ & Htr & Hq & _); try (vm_compute; reflexivity).
  - apply (after_Reachable defaults _ refreshInFlight). vm_compute. reflexivity.
  - exists st'. repeat split; assumption.
Defined.

(** ** A 401 starts a refresh or joins the running one *)

Lemma step_enqueue o st r q :
  isRefreshing st = true -> reqs st !! r = Some q -> stage q = Sent ->
  _retry (cfg q) = false ->
  step o st (Response r unauthorized) =
  Some (spawn r AwaitQueued
          (setQueue (failedQueue st ++ [length (tasks st)])
             (editReq r (hold (length (tasks st))) st))).
Proof.
  intros Hf Hq Hs Hr. simpl. rewrite Hq. simpl. rewrite Hs.
  unfold onRejected. rewrite Hq, Hr. simpl. rewrite Hf. reflexivity.
Qed.


(** * What the two ends of a refresh cycle do *)

Lemma verdict_error err tok : truthyT err = true -> verdict err tok = Some (inl err).
Proof. intros H. unfold verdict. rewrite H. reflexivity. Qed.

Lemma verdict_token tok : truthy tok = true -> verdict (TValue VNull) tok = Some (inr tok).
Proof. intros H. unfold verdict. simpl. rewrite H. reflexivity. Qed.

Lemma catchBlock_spec d err st :
  let v := verdict err VNull in
  let st' := catchBlock d err st in
  isRefreshing st' = isRefreshing st /\
  failedQueue st' = [] /\
  defaultAuthorization st' = defaultAuthorization st /\
  reqs st' = reqs st /\
  trace st' = trace st ++ verdictEvents v (failedQueue st) ++ [EvRemoveToken d] /\
  forall j, tasks st' !! j =
            if decide (d = j)
            then setPc (AwaitRemoveToken err) <$> (wakeIn v (failedQueue st) j <$> tasks st !! j)
            else wakeIn v (failedQueue st) j <$> tasks st !! j.
Proof.
  unfold catchBlock.
  destruct (processQueue_spec err VNull st) as (E1 & E2 & E3 & E4 & E5 & E6).
  repeat split; try assumption.
  - change (trace (processQueue err VNull st) ++ [EvRemoveToken d] =
            trace st ++ verdictEvents (verdict err VNull) (failedQueue st)
              ++ [EvRemoveToken d]).
    rewrite E5, <- app_assoc. reflexivity.
  - intros j. rewrite tasks_goto.
    change (tasks (emit (EvRemoveToken d) (processQueue err VNull st)))
      with (tasks (processQueue err VNull st)).
    rewrite E6. reflexivity.
Qed.

Lemma rejectWith_caller o st tid t q e :
  tasks st !! tid = Some t -> reqs st !! t_rid t = Some q -> awaiter q = Caller ->
  rejectWith o tid e st =
  emit (EvSettle (t_rid t) (inl e))
    (editReq (t_rid t) (setStage Answered) (goto tid Finished st)).
Proof.
  intros Ht Hq Ha. unfold rejectWith. rewrite Ht. unfold settleReq.
  change (reqs (goto tid Finished st)) with (reqs st). rewrite Hq, Ha. reflexivity.
Qed.

Lemma failTail_caller o st d t q e :
  tasks st !! d = Some t -> reqs st !! t_rid t = Some q -> awaiter q = Caller ->
  failTail o d e st =
  emit (EvSettle (t_rid t) (inl e))
    (editReq (t_rid t) (setStage Answered) (goto d Finished (setRefreshing false st))).
Proof. intros Ht Hq Ha. unfold failTail. by erewrite rejectWith_caller. Qed.

Lemma pcOf_goto_same st d t p : tasks st !! d = Some t -> pcOf (goto d p st) d = Some p.
Proof. intros Ht. unfold pcOf. rewrite tasks_goto, decide_True, Ht by reflexivity. reflexivity. Qed.

Lemma RefreshFailure_step o st d i err st0 :
  RefreshFailure o st d i err st0 ->
  step o st i = Some (catchBlock d err st0) /\
  failedQueue st0 = failedQueue st /\ tasks st0 = tasks st /\
  isRefreshing st0 = isRefreshing st /\
  exists p, pcOf st d = Some p /\ inTry p = true.
Proof.
  intros H. destruct H as [e Hp|v Hp Hv|v e Hp Hv Ha|p q e e' Hp Hq Ha Hs Hv
                            |p q status Hp Hq Ha Hs Hc|p q data e Hp Hq Ha Hs Hr
                            |nt nrt e Hp|nt nrt e Hp];
    (split; [|repeat split; try reflexivity; eexists; split; [exact Hp|reflexivity]]).
  - simpl. rewrite Hp. reflexivity.
  - simpl. rewrite Hp. unfold afterGetRefreshToken. rewrite Hv. reflexivity.
  - simpl. rewrite Hp. unfold afterGetRefreshToken. rewrite Hv, Ha. reflexivity.
  - simpl. rewrite Hq. destruct q as [c a s]. simpl in *. subst a s. simpl.
    rewrite Hv. unfold settleReq. rewrite Hq. simpl.
    change (pcOf (emit _ (editReq p _ st)) d) with (pcOf st d). rewrite Hp. reflexivity.
  - simpl. rewrite Hq. simpl. rewrite Hs.
    assert (Hon : onRejected p status st = (st, Rejects (TAxios p status))).
    { unfold onRejected. rewrite Hq.
      destruct Hc as [Hc|Hc]; [rewrite (is401_false _ Hc)|rewrite Hc, andb_false_r];
        reflexivity. }
    rewrite Hon. unfold settleReq. rewrite Hq, Ha.
    change (pcOf (emit _ (editReq p _ st)) d) with (pcOf st d). rewrite Hp. reflexivity.
  - simpl. rewrite Hq. simpl. rewrite Hs. unfold settleReq. rewrite Hq, Ha.
    change (pcOf (emit _ (editReq p _ st)) d) with (pcOf st d). rewrite Hp.
    unfold afterPost. rewrite Hr. reflexivity.
  - simpl. rewrite Hp. reflexivity.
  - simpl. rewrite Hp. reflexivity.
Qed.

(** The segment in which the [try] block throws a truthy error: every queued
    waiter is rejected with it, in queue order, and [removeTokenFn] is called. *)
Lemma catch_entered o st d i err st0 :
  RefreshFailure o st d i err st0 -> truthyT err = true ->
  exists st1,
    step o st i = Some st1 /\
    trace st1 = trace st0 ++ map (fun w => EvReject w err) (failedQueue st)
                  ++ [EvRemoveToken d] /\
    failedQueue st1 = [] /\ isRefreshing st1 = isRefreshing st /\
    pcOf st1 d = Some (AwaitRemoveToken err) /\
    forall w t, w ∈ failedQueue st -> tasks st !! w = Some t -> pc t = AwaitQueued ->
                tasks st1 !! w = Some {| t_rid := t_rid t; pc := Woken (inl err) |}.
Proof.
  intros HF He.
  destruct (RefreshFailure_step o st d i err st0 HF)
    as (Hstep & Eq & Et & Ef & p & Hp & Hin).
  destruct (catchBlock_spec d err st0) as (E1 & E2 & E3 & E4 & E5 & E6).
  exists (catchBlock d err st0). rewrite (verdict_error _ _ He) in *.
  rewrite Eq in *. rewrite Et in *.
  repeat split; try assumption; try congruence.
  - unfold pcOf in *. rewrite E6, decide_True by reflexivity.
    destruct (tasks st !! d); [reflexivity|discriminate].
  - intros w t Hw Ht Hpc. rewrite E6, Ht.
    destruct (decide (d = w)) as [->|Hdw].
    + unfold pcOf in Hp. rewrite Ht in Hp. simpl in Hp.
      injection Hp as <-. rewrite Hpc in Hin. discriminate.
    + simpl. rewrite decide_True by assumption. unfold wake. rewrite Hpc.
      reflexivity.
Qed.

(** * The failure path (C5) *)

(** C5 fails where [removeTokenFn] rejects: the cycle has failed (no refresh
    token), yet the callback is not called and the driving caller gets the
    error of the removal, not the refresh error. *)
Lemma C5_counterexample :
  let st := after defaults removalFails in
  run defaults init removalFails = Some st /\
  onRefreshFailure defaults = true /\
  isRefreshing st = false /\
  callbacksBy 0 st = 0 /\
  trace st = [EvGetRefreshToken 0; EvRemoveToken 0; EvSettle 0 (inl (TError "storage"))] /\
  TError "storage" <> TError "No refresh token available".
Proof. vm_compute. repeat split; try reflexivity. discriminate. Qed.

(** C5, amended: when the [try] block of the driver throws a truthy error
    [err] at any of its steps, that segment (A) rejects every queued waiter
    with [err] in queue order, empties the queue and calls [removeTokenFn].
    (B) If [removeTokenFn] resolves, the configured callback is called with
    [err], for the first time in this cycle; without a callback [err] is
    propagated at once.  (C) If the callback resolves, [err] is propagated to
    the driving caller, the flag is cleared, and the callback has been called
    exactly once.  (D) A waiter rejected with [err] propagates [err] to its
    caller.  (E) Queue order is arrival order: a 401 that arrives while the
    refresh is running puts its invocation, the newest one, at the end of the
    queue. *)
Theorem C5_refresh_failure o st d i err st0 :
  RefreshFailure o st d i err st0 -> truthyT err = true ->
  (exists st1,
     step o st i = Some st1 /\
     trace st1 = trace st0 ++ map (fun w => EvReject w err) (failedQueue st)
                   ++ [EvRemoveToken d] /\
     failedQueue st1 = [] /\ isRefreshing st1 = isRefreshing st /\
     pcOf st1 d = Some (AwaitRemoveToken err) /\
     forall w t, w ∈ failedQueue st -> tasks st !! w = Some t -> pc t = AwaitQueued ->
                 tasks st1 !! w = Some {| t_rid := t_rid t; pc := Woken (inl err) |}) /\
  (forall s t q,
     Reachable o s -> tasks s !! d = Some t -> pc t = AwaitRemoveToken err ->
     reqs s !! t_rid t = Some q -> awaiter q = Caller ->
     callbacksBy d s = 0 /\
     exists s',
       step o s (RemoveTokenDone d None) = Some s' /\
       if onRefreshFailure o
       then trace s' = trace s ++ [EvOnRefreshFailure d err] /\
            pcOf s' d = Some (AwaitOnRefreshFailure err) /\
            callbacksBy d s' = 1 /\ isRefreshing s' = isRefreshing s
       else trace s' = trace s ++ [EvSettle (t_rid t) (inl err)] /\
            pcOf s' d = Some Finished /\ isRefreshing s' = false) /\
  (forall s t q,
     Reachable o s -> tasks s !! d = Some t -> pc t = AwaitOnRefreshFailure err ->
     reqs s !! t_rid t = Some q -> awaiter q = Caller ->
     callbacksBy d s = 1 /\
     exists s',
       step o s (OnRefreshFailureDone d None) = Some s' /\
       trace s' = trace s ++ [EvSettle (t_rid t) (inl err)] /\
       callbacksBy d s' = 1 /\
       pcOf s' d = Some Finished /\ isRefreshing s' = false) /\
  (forall s w t q,
     tasks s !! w = Some t -> pc t = Woken (inl err) ->
     reqs s !! t_rid t = Some q -> awaiter q = Caller ->
     exists s',
       step o s (Continue w) = Some s' /\
       trace s' = trace s ++ [EvSettle (t_rid t) (inl err)]) /\
  (forall s r q,
     isRefreshing s = true -> reqs s !! r = Some q -> stage q = Sent ->
     _retry (cfg q) = false ->
     exists s',
       step o s (Response r (inl (Some 401%Z))) = Some s' /\
       failedQueue s' = failedQueue s ++ [length (tasks s)] /\
       tasks s' = tasks s ++ [{| t_rid := r; pc := AwaitQueued |}]).
Proof.
  intros HF He. split; [|split; [|split; [|split]]].
  - by apply catch_entered.
  - intros s t q HR Ht Hp Hq Ha. apply Reachable_Inv in HR.
    assert (Hz : callbacksBy d s = 0).
    { destruct (inv_once s HR MCallback d) as [_ Hm]. rewrite Ht, Hp in Hm.
      by apply Hm. }
    split; [exact Hz|]. simpl. unfold pcOf. rewrite Ht. simpl. rewrite Hp.
    destruct (onRefreshFailure o).
    + eexists. split; [reflexivity|]. repeat split.
      * apply (pcOf_goto_same (emit (EvOnRefreshFailure d err) s) d t). exact Ht.
      * change (marksBy MCallback d (emit (EvOnRefreshFailure d err) s) = 1).
        rewrite marksBy_emit. simpl. rewrite Nat.eqb_refl.
        change (marksBy MCallback d s) with (callbacksBy d s). lia.
    + eexists. split; [reflexivity|].
      rewrite (failTail_caller o s d t q err Ht Hq Ha). repeat split.
      unfold pcOf. simpl. rewrite list_lookup_alter, decide_True, Ht by reflexivity.
      reflexivity.
  - intros s t q HR Ht Hp Hq Ha. apply Reachable_Inv in HR.
    assert (Hz : callbacksBy d s = 1).
    { destruct (inv_once s HR MCallback d) as [_ Hm]. rewrite Ht, Hp in Hm.
      by apply Hm. }
    split; [exact Hz|]. simpl. unfold pcOf. rewrite Ht. simpl. rewrite Hp.
    eexists. split; [reflexivity|].
    rewrite (failTail_caller o s d t q err Ht Hq Ha). repeat split.
    + unfold callbacksBy in *. simpl. rewrite countEv_snoc. simpl. lia.
    + unfold pcOf. simpl. rewrite list_lookup_alter, decide_True, Ht by reflexivity.
      reflexivity.
  - intros s w t q Ht Hp Hq Ha. simpl. unfold pcOf. rewrite Ht. simpl. rewrite Hp.
    eexists. split; [reflexivity|]. unfold resume.
    rewrite (rejectWith_caller o s w t q err Ht Hq Ha). reflexivity.
  - intros s r q Hf Hq Hst Hr. eexists.
    split; [exact (step_enqueue o s r q Hf Hq Hst Hr)|]. split; reflexivity.
Qed.

(** Scenario E with a second request waiting: no refresh token is stored. *)
Lemma C5_witness :
  exists st1,
    step defaults twoWaiting (GetRefreshTokenDone 0 (inr VNull)) = Some st1 /\
    trace st1 = trace twoWaiting
                  ++ [EvReject 1 (TError "No refresh token available"); EvRemoveToken 0] /\
    pcOf st1 0 = Some (AwaitRemoveToken (TError "No refresh token available")) /\
    tasks st1 !! 1 =
      Some {| t_rid := 1; pc := Woken (inl (TError "No refresh token available")) |}.
Proof.
  destruct (C5_refresh_failure defaults twoWaiting 0
              (GetRefreshTokenDone 0 (inr VNull))
              (TError "No refresh token available") twoWaiting)
    as ((st1 & Hstep & Htr & _ & _ & Hpc & Hw) & _).
  - apply rf_missing; reflexivity.
  - reflexivity.
  - exists st1. split; [exact Hstep|]. split; [exact Htr|]. split; [exact Hpc|].
    apply (Hw 1 {| t_rid := 1; pc := AwaitQueued |}); [|vm_compute; reflexivity|reflexivity].
    vm_compute. apply list_elem_of_here.
Defined.

(** * The success path (C6) *)

Lemma successTail_spec o st d t q newToken :
  tasks st !! d = Some t -> driving (pc t) = true -> reqs st !! t_rid t = Some q ->
  let v := verdict (TValue VNull) newToken in
  let c' := withAuthorization o newToken (cfg q) in
  let st' := successTail o d newToken st in
  isRefreshing st' = false /\
  failedQueue st' = [] /\
  defaultAuthorization st' = Some (bearer o newToken) /\
  trace st' = trace st ++ verdictEvents v (failedQueue st) ++ [EvReissue (t_rid t) c'] /\
  (forall r, reqs st' !! r =
             if decide (r = t_rid t)
             then Some {| cfg := mergeConfig (Some (bearer o newToken)) c';
                          awaiter := awaiter q; stage := Handed |}
             else reqs st !! r) /\
  (forall j, tasks st' !! j =
             if decide (j = d) then Some (setPc Finished t)
             else wakeIn v (failedQueue st) j <$> tasks st !! j).
Proof.
  intros Ht Hd Hq. unfold successTail. rewrite Ht.
  set (F := fun q0 : Req => if hasHeaders (cfg q0)
                            then setCfg (setAuthorization (bearer o newToken) (cfg q0)) q0
                            else q0).
  set (st1 := setDefault (bearer o newToken) st).
  destruct (processQueue_spec (TValue VNull) newToken st1) as (E1 & E2 & E3 & E4 & E5 & E6).
  set (pq := processQueue (TValue VNull) newToken st1) in *.
  assert (Ht3 : tasks (editReq (t_rid t) F pq) !! d = Some t).
  { change (tasks (editReq (t_rid t) F pq)) with (tasks pq). rewrite E6.
    change (tasks st1) with (tasks st). rewrite Ht. simpl. by rewrite wakeIn_driver. }
  assert (Hq3 : reqs (editReq (t_rid t) F pq) !! t_rid t = Some (F q)).
  { rewrite reqs_editReq, decide_True, E4 by reflexivity.
    change (reqs st1) with (reqs st). rewrite Hq. reflexivity. }
  assert (HF : cfg (F q) = withAuthorization o newToken (cfg q)).
  { unfold F, withAuthorization. destruct (hasHeaders (cfg q)); reflexivity. }
  assert (HFa : awaiter (F q) = awaiter q).
  { unfold F. destruct (hasHeaders (cfg q)); reflexivity. }
  unfold retryOriginal. rewrite Ht3. rewrite (reissue_eq _ _ _ Hq3), HF.
  repeat split.
  - exact E3.
  - change (trace pq ++ [EvReissue (t_rid t) (withAuthorization o newToken (cfg q))] =
            trace st ++ verdictEvents (verdict (TValue VNull) newToken) (failedQueue st)
              ++ [EvReissue (t_rid t) (withAuthorization o newToken (cfg q))]).
    rewrite E5, <- app_assoc. reflexivity.
  - intros r.
    change (reqs (setRefreshing false (goto d Finished (emit _ ?s)))) with (reqs s).
    rewrite reqs_editReq. case_decide as Hr.
    + subst r. rewrite decide_True, Hq3 by reflexivity.
      change (defaultAuthorization (editReq (t_rid t) F pq))
        with (defaultAuthorization pq).
      rewrite E3. unfold handBack, setStage, setCfg. cbn [cfg awaiter fmap option_fmap option_map].
      rewrite HF, HFa. reflexivity.
    + rewrite decide_False by congruence.
      rewrite reqs_editReq, decide_False, E4 by congruence. reflexivity.
  - intros j.
    change (tasks (setRefreshing false ?s)) with (tasks s).
    rewrite tasks_goto.
    change (tasks (emit _ (editReq _ _ (editReq _ _ pq)))) with (tasks pq).
    rewrite E6. change (tasks st1) with (tasks st). change (failedQueue st1) with (failedQueue st).
    case_decide as Hj.
    + subst j. rewrite decide_True, Ht by reflexivity. simpl.
      by rewrite wakeIn_driver.
    + rewrite decide_False by congruence. reflexivity.
Qed.

(** The continuation of a waiter that was resolved with [tok]. *)
Lemma resume_resolved o st w t q tok :
  tasks st !! w = Some t -> reqs st !! t_rid t = Some q -> hasHeaders (cfg q) = true ->
  let c' := setAuthorization (bearer o tok) (cfg q) in
  let st' := resume o w (inr tok) st in
  trace st' = trace st ++ [EvReissue (t_rid t) c'] /\
  isRefreshing st' = isRefreshing st /\
  (failedQueue st' = failedQueue st /\ defaultAuthorization st' = defaultAuthorization st) /\
  (forall r, reqs st' !! r =
             if decide (r = t_rid t)
             then Some {| cfg := c'; awaiter := awaiter q; stage := Handed |}
             else reqs st !! r) /\
  (forall j, tasks st' !! j =
             if decide (j = w) then Some (setPc Finished t) else tasks st !! j).
Proof.
  intros Ht Hq Hh. unfold resume. rewrite Ht, Hq. simpl. rewrite Hh.
  set (st1 := editReq (t_rid t) (setCfg (setAuthorization (bearer o tok) (cfg q))) st).
  assert (Hq1 : reqs st1 !! t_rid t =
                Some (setCfg (setAuthorization (bearer o tok) (cfg q)) q)).
  { subst st1. rewrite reqs_editReq, decide_True, Hq by reflexivity. reflexivity. }
  unfold retryOriginal. change (tasks st1) with (tasks st). rewrite Ht.
  rewrite (reissue_eq _ _ _ Hq1). repeat split.
  - intros r. change (reqs (goto w Finished (emit _ ?s))) with (reqs s).
    rewrite reqs_editReq. case_decide as Hr.
    + subst r. rewrite decide_True, Hq1 by reflexivity. reflexivity.
    + rewrite decide_False by congruence. subst st1.
      rewrite reqs_editReq, decide_False by congruence. reflexivity.
  - intros j. rewrite tasks_goto.
    change (tasks (emit _ (editReq _ _ st1))) with (tasks st).
    case_decide as Hj.
    + subst j. rewrite decide_True, Ht by reflexivity. reflexivity.
    + rewrite decide_False by congruence. reflexivity.
Qed.

(** C6 fails for an empty new credential: the cycle runs through the success
    path (both setters called, default header set, driving request reissued),
    but the queued waiter is neither resolved nor rejected. *)
Lemma C6_counterexample :
  let st := after defaults emptyCredential in
  run defaults init emptyCredential = Some st /\
  isRefreshing st = false /\
  defaultAuthorization st = Some "Bearer " /\
  countEv isSettling (trace st) = 0 /\
  failedQueue st = [] /\
  tasks st !! 1 = Some {| t_rid := 1; pc := AwaitQueued |} /\
  trace st =
    [EvGetRefreshToken 0; EvPost 0 2 [("refreshToken", VStr "r1")];
     EvSettle 2 (inr (body (VStr "") (VStr "") (VStr "r2")));
     EvSetToken 0 (VStr ""); EvSetRefreshToken 0 (VStr "r2");
     EvReissue 0 (markRetry (setAuthorization "Bearer " (plain "/a")))].
Proof. vm_compute. repeat split; reflexivity. Qed.

(** C6, amended: a refresh cycle whose response yields a non-empty new
    credential (A) reads the pair through the response adapter and calls
    [setTokenFn] with the credential, (B) then [setRefreshTokenFn] with the
    refresh credential, (C) then sets the default Authorization header,
    resolves every queued waiter with the credential in queue order, empties
    the queue, reissues the driving request with its Authorization header set
    to [prefix ++ credential] and clears the flag.  (D) A resolved waiter
    reissues its request with the same header.  (E) The default adapter reads
    [token], or [accessToken] when [token] is falsy, and [refreshToken].
    (F) Queue order is arrival order: a 401 that arrives while the refresh is
    running puts its invocation, the newest one, at the end of the queue. *)
Theorem C6_refresh_success o st d t p qp data newToken newRefreshToken :
  tasks st !! d = Some t -> pc t = AwaitPost ->
  reqs st !! p = Some qp -> awaiter qp = RefreshCall d -> stage qp = Sent ->
  responseAdapterOf o data = inr (newToken, newRefreshToken) ->
  truthy newToken = true ->
  (exists st1,
     step o st (Response p (inr data)) = Some st1 /\
     trace st1 = trace st ++ [EvSettle p (inr data); EvSetToken d newToken] /\
     pcOf st1 d = Some (AwaitSetToken newToken newRefreshToken)) /\
  (forall s t',
     tasks s !! d = Some t' -> pc t' = AwaitSetToken newToken newRefreshToken ->
     exists s',
       step o s (SetTokenDone d None) = Some s' /\
       trace s' = trace s ++ [EvSetRefreshToken d newRefreshToken] /\
       pcOf s' d = Some (AwaitSetRefreshToken newToken newRefreshToken)) /\
  (forall s t' q,
     tasks s !! d = Some t' -> pc t' = AwaitSetRefreshToken newToken newRefreshToken ->
     reqs s !! t_rid t' = Some q ->
     exists s',
       step o s (SetRefreshTokenDone d None) = Some s' /\
       defaultAuthorization s' = Some (prefixOf o +:+ template newToken) /\
       trace s' = trace s ++ map (fun w => EvResolve w newToken) (failedQueue s)
                    ++ [EvReissue (t_rid t') (withAuthorization o newToken (cfg q))] /\
       failedQueue s' = [] /\ isRefreshing s' = false /\
       reqs s' !! t_rid t' =
         Some {| cfg := mergeConfig (defaultAuthorization s')
                          (withAuthorization o newToken (cfg q));
                 awaiter := awaiter q; stage := Handed |} /\
       (hasHeaders (cfg q) = true ->
        authorizationOf (withAuthorization o newToken (cfg q)) =
        Some (prefixOf o +:+ template newToken)) /\
       forall w tw, w ∈ failedQueue s -> tasks s !! w = Some tw -> pc tw = AwaitQueued ->
                    tasks s' !! w = Some {| t_rid := t_rid tw; pc := Woken (inr newToken) |}) /\
  (forall s w tw q,
     tasks s !! w = Some tw -> pc tw = Woken (inr newToken) ->
     reqs s !! t_rid tw = Some q -> hasHeaders (cfg q) = true ->
     exists s',
       step o s (Continue w) = Some s' /\
       trace s' = trace s
                    ++ [EvReissue (t_rid tw) (setAuthorization (bearer o newToken) (cfg q))] /\
       reqs s' !! t_rid tw =
         Some {| cfg := setAuthorization (bearer o newToken) (cfg q);
                 awaiter := awaiter q; stage := Handed |}) /\
  (refreshTokenResponseAdapter o = None ->
   forall b, responseAdapterOf o (Some b) =
             inr (jsOr (token b) (accessToken b), refreshToken b)) /\
  (forall s r q,
     isRefreshing s = true -> reqs s !! r = Some q -> stage q = Sent ->
     _retry (cfg q) = false ->
     exists s',
       step o s (Response r (inl (Some 401%Z))) = Some s' /\
       failedQueue s' = failedQueue s ++ [length (tasks s)] /\
       tasks s' = tasks s ++ [{| t_rid := r; pc := AwaitQueued |}]).
Proof.
  intros Ht Hp Hqp Ha Hs Had Htok. split; [|split; [|split; [|split; [|split]]]].
  - simpl. rewrite Hqp. simpl. rewrite Hs. unfold settleReq. rewrite Hqp, Ha.
    change (pcOf (emit _ (editReq p _ st)) d) with (pcOf st d).
    unfold pcOf at 1. rewrite Ht. simpl. rewrite Hp.
    unfold afterPost. rewrite Had. eexists. split; [reflexivity|]. split.
    + simpl. rewrite <- app_assoc. reflexivity.
    + apply pcOf_goto_same with (t := t). exact Ht.
  - intros s t' Ht' Hp'. simpl. unfold pcOf at 1. rewrite Ht'. simpl. rewrite Hp'.
    eexists. split; [reflexivity|]. split; [reflexivity|].
    apply pcOf_goto_same with (t := t'). exact Ht'.
  - intros s t' q Ht' Hp' Hq. simpl. unfold pcOf. rewrite Ht'. simpl. rewrite Hp'.
    assert (Hd : driving (pc t') = true) by (by rewrite Hp').
    destruct (successTail_spec o s d t' q newToken Ht' Hd Hq)
      as (E1 & E2 & E3 & E4 & E5 & E6).
    rewrite (verdict_token _ Htok) in *.
    eexists. split; [reflexivity|]. repeat split; try assumption.
    + rewrite E5, decide_True by reflexivity. rewrite E3. reflexivity.
    + intros Hh. unfold withAuthorization. rewrite Hh. reflexivity.
    + intros w tw Hw Htw Hpw. rewrite E6.
      rewrite decide_False by (intros ->; congruence).
      rewrite Htw. simpl. rewrite decide_True by assumption.
      unfold wake. rewrite Hpw. reflexivity.
  - intros s w tw q Htw Hpw Hq Hh. simpl. unfold pcOf. rewrite Htw. simpl. rewrite Hpw.
    destruct (resume_resolved o s w tw q newToken Htw Hq Hh) as (E1 & _ & _ & E4 & _).
    eexists. split; [reflexivity|]. split; [exact E1|].
    rewrite E4, decide_True by reflexivity. reflexivity.
  - intros Hdef b. unfold responseAdapterOf. rewrite Hdef. reflexivity.
  - intros s r q Hf Hq Hst Hr. eexists.
    split; [exact (step_enqueue o s r q Hf Hq Hst Hr)|]. split; reflexivity.
Qed.

(** Scenario D: two requests fail, the refresh answers
    [{token: "abc2", refreshToken: "r2"}], and the waiter is resolved. *)
Lemma C6_witness :
  exists s',
    step defaults storingTwo (SetRefreshTokenDone 0 None) = Some s' /\
    trace s' = trace storingTwo
                 ++ [EvResolve 1 (VStr "abc2");
                     EvReissue 0 (markRetry (setAuthorization "Bearer abc2" (plain "/a")))] /\
    tasks s' !! 1 = Some {| t_rid := 1; pc := Woken (inr (VStr "abc2")) |}.
Proof.
  destruct (C6_refresh_success defaults twoRefreshing 0
              {| t_rid := 0; pc := AwaitPost |} 2
              {| cfg := setAuthorization "Bearer abc" (refreshConfig defaults);
                 awaiter := RefreshCall 0; stage := Sent |}
              (body (VStr "abc2") VUndefined (VStr "r2")) (VStr "abc2") (VStr "r2"))
    as (_ & _ & Hdrain & _); try (vm_compute; reflexivity).
  destruct (Hdrain storingTwo
              {| t_rid := 0; pc := AwaitSetRefreshToken (VStr "abc2") (VStr "r2") |}
              {| cfg := markRetry (setAuthorization "Bearer abc" (plain "/a"));
                 awaiter := Caller; stage := Intercepted 0 |})
    as (s' & Hstep & _ & Htr & _ & _ & _ & _ & Hw); try (vm_compute; reflexivity).
  exists s'. split; [exact Hstep|]. split; [exact Htr|].
  apply (Hw 1 {| t_rid := 1; pc := AwaitQueued |}); [|vm_compute; reflexivity|reflexivity].
  vm_compute. apply list_elem_of_here.
Defined.

(** * [removeTokenFn] rejects (C9) *)




(** * Waiters that are never released (C2) *)

(** C2 on the code: the cycle has completed (flag cleared, driver returned),
    the waiter pushed during the cycle is still on the queue and still
    suspended, and no [resolve] or [reject] was ever called. *)
Theorem C2_waiter_left_behind :
  let st := after defaults lateArrival in
  run defaults init lateArrival = Some st /\
  isRefreshing st = false /\
  pcOf st 0 = Some Finished /\
  failedQueue st = [1] /\
  tasks st !! 1 = Some {| t_rid := 1; pc := AwaitQueued |} /\
  countEv isSettling (trace st) = 0 /\
  trace st =
    [EvGetRefreshToken 0; EvRemoveToken 0;
     EvOnRefreshFailure 0 (TError "No refresh token available");
     EvSettle 0 (inl (TError "No refresh token available"))].
Proof. vm_compute. repeat split; reflexivity. Qed.

(** * Single flight (C1) *)

(** ** A burst of 401s *)


(** ** The refresh itself *)

Lemma step_getRefreshToken o st d t rt payload :
  tasks st !! d = Some t -> pc t = AwaitGetRefreshToken ->
  truthy rt = true -> payloadAdapterOf o rt = inr payload ->
  step o st (GetRefreshTokenDone d (inr rt)) =
  Some (goto d AwaitPost
          (emit (EvPost d (length (reqs st)) payload)
             (setReqs (reqs st ++ [refreshCall o (defaultAuthorization st) d]) st))).
Proof.
  intros Ht Hp Hrt Hpay. simpl. unfold pcOf. rewrite Ht. simpl. rewrite Hp.
  unfold afterGetRefreshToken. rewrite Hrt, Hpay. reflexivity.
Qed.

Lemma step_getToken o st p c a tokP :
  reqs st !! p = Some {| cfg := c; awaiter := a; stage := Handed |} ->
  step o st (GetTokenDone p (inr tokP)) =
  Some (editReq p (fun q => setStage Sent (setCfg (requestInterceptor o c tokP) q)) st).
Proof. intros Hq. simpl. rewrite Hq. reflexivity. Qed.

Lemma step_refreshAnswer o st p q d t data tok nrt :
  reqs st !! p = Some q -> stage q = Sent -> awaiter q = RefreshCall d ->
  tasks st !! d = Some t -> pc t = AwaitPost ->
  responseAdapterOf o data = inr (tok, nrt) ->
  step o st (Response p (inr data)) =
  Some (goto d (AwaitSetToken tok nrt)
          (emit (EvSetToken d tok)
             (emit (EvSettle p (inr data)) (editReq p (setStage Answered) st)))).
Proof.
  intros Hq Hs Ha Ht Hp Had. simpl. rewrite Hq. simpl. rewrite Hs.
  unfold settleReq. rewrite Hq, Ha. unfold pcOf.
  change (tasks (emit _ (editReq p _ st))) with (tasks st). rewrite Ht. simpl.
  rewrite Hp. unfold afterPost. rewrite Had. reflexivity.
Qed.

Lemma step_setToken o st d t tok nrt :
  tasks st !! d = Some t -> pc t = AwaitSetToken tok nrt ->
  step o st (SetTokenDone d None) =
  Some (goto d (AwaitSetRefreshToken tok nrt) (emit (EvSetRefreshToken d nrt) st)).
Proof. intros Ht Hp. simpl. unfold pcOf. rewrite Ht. simpl. rewrite Hp. reflexivity. Qed.

Lemma step_setRefreshToken o st d t tok nrt :
  tasks st !! d = Some t -> pc t = AwaitSetRefreshToken tok nrt ->
  step o st (SetRefreshTokenDone d None) = Some (successTail o d tok st).
Proof. intros Ht Hp. simpl. unfold pcOf. rewrite Ht. simpl. rewrite Hp. reflexivity. Qed.



(** ** The released waiters *)



(** ** N requests fail at once and the refresh succeeds *)



(** ** N requests fail at once and the refresh fails *)










(** ** The claim *)






(** * Further properties of the interceptors *)

(** ** The request interceptor (lines 92-101) *)

(** The request interceptor touches nothing but the [Authorization] header:
    [url] and the [_retry] marker stay as they are, a descriptor without a
    [headers] object is returned as it was given whatever the store answers,
    and running the interceptor once more with the same answer changes nothing
    further.  A rejection of [getTokenFn] is passed on as it is. *)
Theorem requestInterceptor_frame o config got :
  match onRequest o config got with
  | inl e => got = inl e
  | inr c' =>
      url c' = url config /\ _retry c' = _retry config /\
      hasHeaders c' = hasHeaders config /\
      (hasHeaders config = false -> c' = config) /\
      onRequest o c' got = inr c'
  end.
Proof.
  destruct got as [e|tok]; simpl; [reflexivity|].
  unfold requestInterceptor.
  destruct (truthy tok) eqn:Ht, (hasHeaders config) eqn:Hh; simpl;
    rewrite ?Ht, ?Hh; simpl; repeat split; try reflexivity; try discriminate; auto.
Qed.

(** ** The failure callback rejects (lines 171-179) *)

(** When [onRefreshFailure] rejects (or throws), its error replaces the
    refresh error: the driving caller is rejected with the error of the
    callback.  The [finally] still clears [isRefreshing]. *)
Theorem callback_rejects o st d t q err e2 :
  tasks st !! d = Some t -> pc t = AwaitOnRefreshFailure err ->
  reqs st !! t_rid t = Some q -> awaiter q = Caller ->
  exists st',
    step o st (OnRefreshFailureDone d (Some e2)) = Some st' /\
    trace st' = trace st ++ [EvSettle (t_rid t) (inl e2)] /\
    isRefreshing st' = false /\
    pcOf st' d = Some Finished /\
    failedQueue st' = failedQueue st.
Proof.
  intros Ht Hp Hq Ha. simpl. unfold pcOf. rewrite Ht. simpl. rewrite Hp.
  eexists. split; [reflexivity|].
  rewrite (failTail_caller o st d t q e2 Ht Hq Ha). repeat split.
  unfold pcOf. simpl. rewrite list_lookup_alter, decide_True, Ht by reflexivity.
  reflexivity.
Qed.

Lemma callback_rejects_witness :
  exists st',
    step defaults callbackPending (OnRefreshFailureDone 0 (Some (TError "router"))) = Some st' /\
    trace st' = trace callbackPending ++ [EvSettle 0 (inl (TError "router"))] /\
    isRefreshing st' = false.
Proof.
  destruct (callback_rejects defaults callbackPending 0
              {| t_rid := 0; pc := AwaitOnRefreshFailure (TError "No refresh token available") |}
              {| cfg := markRetry (setAuthorization "Bearer abc" (plain "/a"));
                 awaiter := Caller; stage := Intercepted 0 |}
              (TError "No refresh token available") (TError "router"))
    as (st' & Hstep & Htr & Hf & _); try (vm_compute; reflexivity).
  exists st'. repeat split; assumption.
Defined.

(** ** [processQueue] with nothing to hand out (lines 80-89) *)

(** A refresh that succeeds with a falsy new token (empty, [null] or
    [undefined]): the success path runs to its end all the same.  The default
    header and the header of the driving request are set from the template
    string (["Bearer undefined"] for [undefined]), the driving request is
    reissued, the queue is emptied and the flag cleared, but [processQueue]
    calls neither [resolve] nor [reject]: the invocations that were queued stay
    suspended where they were. *)
Theorem refresh_success_falsy_token o st d t q newToken newRefreshToken :
  tasks st !! d = Some t -> pc t = AwaitSetRefreshToken newToken newRefreshToken ->
  reqs st !! t_rid t = Some q -> truthy newToken = false ->
  exists st',
    step o st (SetRefreshTokenDone d None) = Some st' /\
    defaultAuthorization st' = Some (prefixOf o +:+ template newToken) /\
    trace st' = trace st ++ [EvReissue (t_rid t) (withAuthorization o newToken (cfg q))] /\
    failedQueue st' = [] /\ isRefreshing st' = false /\
    forall w, w <> d -> tasks st' !! w = tasks st !! w.
Proof.
  intros Ht Hp Hq Hn.
  rewrite (step_setRefreshToken o st d t newToken newRefreshToken Ht Hp).
  assert (Hd : driving (pc t) = true) by (by rewrite Hp).
  destruct (successTail_spec o st d t q newToken Ht Hd Hq) as (E1 & E2 & E3 & E4 & _ & E6).
  assert (Hv : verdict (TValue VNull) newToken = None).
  { unfold verdict. simpl. by rewrite Hn. }
  rewrite Hv in *. simpl in E4.
  eexists. split; [reflexivity|]. repeat split; try assumption.
  intros w Hw. rewrite E6, decide_False by assumption.
  destruct (tasks st !! w); reflexivity.
Qed.

Lemma refresh_success_falsy_token_witness :
  exists st',
    step defaults storingNothing (SetRefreshTokenDone 0 None) = Some st' /\
    defaultAuthorization st' = Some "Bearer undefined" /\
    failedQueue st' = [] /\
    tasks st' !! 1 = Some {| t_rid := 1; pc := AwaitQueued |}.
Proof.
  destruct (refresh_success_falsy_token defaults storingNothing 0
              {| t_rid := 0; pc := AwaitSetRefreshToken VUndefined (VStr "r2") |}
              {| cfg := markRetry (setAuthorization "Bearer abc" (plain "/a"));
                 awaiter := Caller; stage := Intercepted 0 |}
              VUndefined (VStr "r2"))
    as (st' & Hstep & Hdef & _ & Hq & _ & Hw); try (vm_compute; reflexivity).
  exists st'. repeat split; try assumption.
  rewrite Hw by discriminate. vm_compute. reflexivity.
Defined.

(** A refresh that fails with a falsy error (a rejection with [undefined],
    [null] or the empty string): the [catch] block empties the queue and calls
    [removeTokenFn], but [processQueue] rejects nobody: the invocations that
    were queued stay suspended where they were. *)
Theorem refresh_failure_falsy_error o st d i err st0 :
  RefreshFailure o st d i err st0 -> truthyT err = false ->
  exists st1,
    step o st i = Some st1 /\
    trace st1 = trace st0 ++ [EvRemoveToken d] /\
    failedQueue st1 = [] /\
    pcOf st1 d = Some (AwaitRemoveToken err) /\
    forall w, w <> d -> tasks st1 !! w = tasks st !! w.
Proof.
  intros HF He.
  destruct (RefreshFailure_step o st d i err st0 HF)
    as (Hstep & Eq & Et & Ef & p & Hp & Hin).
  destruct (catchBlock_spec d err st0) as (E1 & E2 & E3 & E4 & E5 & E6).
  assert (Hv : verdict err VNull = None).
  { unfold verdict. by rewrite He. }
  rewrite Hv in *. simpl in E5.
  exists (catchBlock d err st0). rewrite Et in *.
  repeat split; try assumption.
  - unfold pcOf in *. rewrite E6, decide_True by reflexivity.
    destruct (tasks st !! d); [reflexivity|discriminate].
  - intros w Hw. rewrite E6, decide_False by congruence.
    destruct (tasks st !! w); reflexivity.
Qed.

Lemma refresh_failure_falsy_error_witness :
  exists st1,
    step defaults twoWaiting (GetRefreshTokenDone 0 (inl (TValue VNull))) = Some st1 /\
    failedQueue st1 = [] /\
    tasks st1 !! 1 = Some {| t_rid := 1; pc := AwaitQueued |}.
Proof.
  destruct (refresh_failure_falsy_error defaults twoWaiting 0
              (GetRefreshTokenDone 0 (inl (TValue VNull))) (TValue VNull) twoWaiting)
    as (st1 & Hstep & _ & Hq & _ & Hw).
  - apply rf_lookup. vm_compute. reflexivity.
  - reflexivity.
  - exists st1. repeat split; try assumption.
    rewrite Hw by discriminate. vm_compute. reflexivity.
Defined.

(** ** The refresh call on the wire (lines 132-142 with 92-99) *)

(** With no payload adapter configured, the driver that finds a refresh token
    [rt] posts the body [{ refreshToken: rt }] to [refreshTokenEndpoint].  The
    call is made through the augmented client, so the request interceptor runs
    on it: when [getTokenFn] answers with a non-empty token, the refresh call
    is sent with that token in its [Authorization] header. *)
Theorem refresh_call_sent o st d t rt tok :
  tasks st !! d = Some t -> pc t = AwaitGetRefreshToken ->
  truthy rt = true -> refreshTokenPayloadAdapter o = None -> truthy tok = true ->
  exists st',
    run o st [GetRefreshTokenDone d (inr rt); GetTokenDone (length (reqs st)) (inr tok)]
      = Some st' /\
    trace st' = trace st ++ [EvPost d (length (reqs st)) [("refreshToken", rt)]] /\
    reqs st' !! length (reqs st) =
      Some {| cfg := {| url := refreshTokenEndpoint o; _retry := false;
                        headers := Some {| Authorization := Some (prefixOf o +:+ template tok) |} |};
              awaiter := RefreshCall d; stage := Sent |} /\
    pcOf st' d = Some AwaitPost /\
    isRefreshing st' = isRefreshing st.
Proof.
  intros Ht Hp Hrt Had Htok.
  assert (Hpay : payloadAdapterOf o rt = inr [("refreshToken", rt)]).
  { unfold payloadAdapterOf. rewrite Had. reflexivity. }
  rewrite run_cons, (step_getRefreshToken o st d t rt _ Ht Hp Hrt Hpay).
  set (st1 := goto d AwaitPost _).
  assert (Hq1 : reqs st1 !! length (reqs st) = Some (refreshCall o (defaultAuthorization st) d)).
  { subst st1. change (reqs (goto _ _ (emit _ (setReqs ?l _)))) with l.
    apply list_lookup_middle. reflexivity. }
  rewrite run_cons, (step_getToken o st1 _ (mergeConfig (defaultAuthorization st) (refreshConfig o))
                       (RefreshCall d) tok Hq1).
  eexists. split; [reflexivity|]. repeat split.
  - rewrite reqs_editReq, decide_True, Hq1 by reflexivity. simpl.
    unfold requestInterceptor. rewrite Htok. reflexivity.
  - change (pcOf (editReq _ _ st1) d) with (pcOf st1 d). subst st1.
    apply (pcOf_goto_same _ d t). exact Ht.
Qed.

Lemma refresh_call_sent_witness :
  exists st',
    run defaults drivingAlone [GetRefreshTokenDone 0 (inr (VStr "r1"));
                               GetTokenDone 1 (inr (VStr "abc"))] = Some st' /\
    trace st' = trace drivingAlone ++ [EvPost 0 1 [("refreshToken", VStr "r1")]].
Proof.
  destruct (refresh_call_sent defaults drivingAlone 0
              {| t_rid := 0; pc := AwaitGetRefreshToken |} (VStr "r1") (VStr "abc"))
    as (st' & Hrun & Htr & _); try (vm_compute; reflexivity).
  exists st'. split; assumption.
Defined.

(** ** The header of a retried request (lines 159-163 with 92-99) *)

(** The driving request is reissued through the augmented client, so the
    request interceptor runs on it again and has the last word on its header:
    the request is sent with the token [getTokenFn] returns at that moment if
    that is non-empty, and with the token the refresh delivered only
    otherwise.  The [_retry] marker stays on it. *)
Theorem retried_request_header o st d t q newToken newRefreshToken got :
  tasks st !! d = Some t -> pc t = AwaitSetRefreshToken newToken newRefreshToken ->
  reqs st !! t_rid t = Some q -> hasHeaders (cfg q) = true ->
  exists st',
    run o st [SetRefreshTokenDone d None; GetTokenDone (t_rid t) (inr got)] = Some st' /\
    reqs st' !! t_rid t =
      Some {| cfg := {| url := url (cfg q); _retry := _retry (cfg q);
                        headers := Some {| Authorization :=
                          Some (bearer o (if truthy got then got else newToken)) |} |};
              awaiter := awaiter q; stage := Sent |}.
Proof.
  intros Ht Hp Hq Hh.
  rewrite run_cons, (step_setRefreshToken o st d t newToken newRefreshToken Ht Hp).
  assert (Hd : driving (pc t) = true) by (by rewrite Hp).
  destruct (successTail_spec o st d t q newToken Ht Hd Hq) as (_ & _ & _ & _ & E5 & _).
  set (st1 := successTail o d newToken st) in *.
  specialize (E5 (t_rid t)). rewrite decide_True in E5 by reflexivity.
  unfold withAuthorization in E5. rewrite Hh in E5.
  rewrite run_cons, (step_getToken o st1 _ _ _ got E5).
  eexists. split; [reflexivity|].
  rewrite reqs_editReq, decide_True, E5 by reflexivity. simpl.
  unfold requestInterceptor. destruct (truthy got); reflexivity.
Qed.

Lemma retried_request_header_witness :
  exists st',
    run defaults storing [SetRefreshTokenDone 0 None; GetTokenDone 0 (inr (VStr "abc"))]
      = Some st' /\
    (authorizationOf <$> (cfg <$> reqs st' !! 0)) = Some (Some "Bearer abc").
Proof.
  destruct (retried_request_header defaults storing 0
              {| t_rid := 0; pc := AwaitSetRefreshToken (VStr "abc2") (VStr "r2") |}
              {| cfg := markRetry (setAuthorization "Bearer abc" (plain "/a"));
                 awaiter := Caller; stage := Intercepted 0 |}
              (VStr "abc2") (VStr "r2") (VStr "abc"))
    as (st' & Hrun & Hq); try (vm_compute; reflexivity).
  exists st'. split; [exact Hrun|]. cbn [t_rid] in Hq. rewrite Hq. reflexivity.
Defined.

(** ** The flag and the default header across the building blocks *)

Lemma catchBlock_keeps d err st :
  isRefreshing (catchBlock d err st) = isRefreshing st /\
  defaultAuthorization (catchBlock d err st) = defaultAuthorization st.
Proof. destruct (catchBlock_spec d err st) as (E1 & _ & E3 & _). by split. Qed.

Lemma afterPost_keeps o d data st :
  isRefreshing (afterPost o d data st) = isRefreshing st /\
  defaultAuthorization (afterPost o d data st) = defaultAuthorization st.
Proof.
  unfold afterPost. destruct (responseAdapterOf o data) as [e|[nt nrt]];
    [apply catchBlock_keeps|by split].
Qed.

Lemma settleReq_keeps o rid r st :
  isRefreshing (settleReq o rid r st) = isRefreshing st /\
  defaultAuthorization (settleReq o rid r st) = defaultAuthorization st.
Proof.
  unfold settleReq. destruct (reqs st !! rid) as [q|]; [|by split].
  destruct (awaiter q) as [|d]; [by split|].
  set (st1 := emit _ _).
  change (isRefreshing st) with (isRefreshing st1).
  change (defaultAuthorization st) with (defaultAuthorization st1).
  destruct (pcOf st1 d) as [[]|]; try by split.
  destruct r as [e|data]; [apply catchBlock_keeps|apply afterPost_keeps].
Qed.

Lemma rejectWith_keeps o tid e st :
  isRefreshing (rejectWith o tid e st) = isRefreshing st /\
  defaultAuthorization (rejectWith o tid e st) = defaultAuthorization st.
Proof.
  unfold rejectWith. destruct (tasks st !! tid) as [t|]; [|by split].
  apply (settleReq_keeps o (t_rid t) (inl e) (goto tid Finished st)).
Qed.

Lemma retryOriginal_keeps tid st :
  isRefreshing (retryOriginal tid st) = isRefreshing st /\
  defaultAuthorization (retryOriginal tid st) = defaultAuthorization st.
Proof.
  unfold retryOriginal. destruct (tasks st !! tid) as [t|]; [|by split].
  unfold reissue. destruct (reqs st !! t_rid t); by split.
Qed.

Lemma resume_keeps o tid r st :
  isRefreshing (resume o tid r st) = isRefreshing st /\
  defaultAuthorization (resume o tid r st) = defaultAuthorization st.
Proof.
  unfold resume. destruct r as [err|tok]; [apply rejectWith_keeps|].
  destruct (tasks st !! tid) as [t|]; [|by split].
  destruct (cfg <$> reqs st !! t_rid t) as [c|]; [|by split].
  destruct (hasHeaders c); [|apply rejectWith_keeps].
  apply (retryOriginal_keeps tid (editReq (t_rid t) _ st)).
Qed.

Lemma afterGetRefreshToken_keeps o d got st :
  isRefreshing (afterGetRefreshToken o d got st) = isRefreshing st /\
  defaultAuthorization (afterGetRefreshToken o d got st) = defaultAuthorization st.
Proof.
  unfold afterGetRefreshToken. destruct got as [e|rt]; [apply catchBlock_keeps|].
  destruct (negb (truthy rt)); [apply catchBlock_keeps|].
  destruct (payloadAdapterOf o rt); [apply catchBlock_keeps|by split].
Qed.

Lemma failTail_keeps o d e st :
  isRefreshing (failTail o d e st) = false /\
  defaultAuthorization (failTail o d e st) = defaultAuthorization st.
Proof. apply (rejectWith_keeps o d e (setRefreshing false st)). Qed.

Lemma onRejected_default rid status st :
  defaultAuthorization (onRejected rid status st).1 = defaultAuthorization st.
Proof.
  unfold onRejected. destruct (reqs st !! rid) as [q|]; [|reflexivity].
  destruct (is401 status && negb (_retry (cfg q))); [|reflexivity].
  match goal with |- context [if ?b then _ else _] => destruct b end; reflexivity.
Qed.

Lemma successTail_keeps o d t newToken st :
  tasks st !! d = Some t ->
  isRefreshing (successTail o d newToken st) = false /\
  defaultAuthorization (successTail o d newToken st) = Some (bearer o newToken).
Proof.
  intros Ht. unfold successTail. rewrite Ht. split; [reflexivity|].
  match goal with |- context [retryOriginal d ?s] =>
    change (defaultAuthorization (retryOriginal d s) = Some (bearer o newToken));
    destruct (retryOriginal_keeps d s) as [_ ->]
  end.
  match goal with |- context [processQueue ?e ?k ?s] =>
    change (defaultAuthorization (processQueue e k s) = Some (bearer o newToken));
    destruct (processQueue_spec e k s) as (_ & _ & -> & _)
  end.
  reflexivity.
Qed.

(** ** The default header (lines 153-155) *)

(** [axiosInstance.defaults.headers.common.Authorization] is written in one
    place only, at the end of a refresh that succeeded.  No other segment
    changes it; in particular a refresh that fails, and calls [removeTokenFn],
    leaves the header of an earlier refresh in place. *)
Theorem default_header_written_on_success o st i st' :
  step o st i = Some st' ->
  defaultAuthorization st' = defaultAuthorization st \/
  exists d newToken newRefreshToken,
    i = SetRefreshTokenDone d None /\
    pcOf st d = Some (AwaitSetRefreshToken newToken newRefreshToken) /\
    defaultAuthorization st' = Some (bearer o newToken).
Proof.
  intros Hstep.
  destruct i as [c|rid got|rid r|d got|d failed|d failed|d failed|d failed|tid];
    simpl in Hstep.
  - injection Hstep as <-. by left.
  - destruct got as [e|tok].
    + change (step o st (GetTokenDone rid (inl e)) = Some st') in Hstep.
      apply step_getToken_failed in Hstep
        as (q & _ & _ & [(e' & ->)|(status & Hon)]); left; [apply settleReq_keeps|].
      pose proof (onRejected_default rid status st) as Hd. by rewrite Hon in Hd.
    + destruct (reqs st !! rid) as [[c a []]|]; try discriminate.
      injection Hstep as <-. by left.
  - destruct (stage <$> reqs st !! rid) as [[]|]; try discriminate.
    destruct r as [status|data].
    + pose proof (onRejected_default rid status st) as Hd.
      destruct (onRejected rid status st) as [st1 []]; injection Hstep as <-; left;
        [|exact Hd].
      destruct (settleReq_keeps o rid (inl e) st1) as [_ ->]. exact Hd.
    + injection Hstep as <-. left. apply settleReq_keeps.
  - destruct (pcOf st d) as [[]|]; try discriminate. injection Hstep as <-.
    left. apply afterGetRefreshToken_keeps.
  - destruct (pcOf st d) as [[]|]; try discriminate.
    destruct failed; injection Hstep as <-; left; [apply catchBlock_keeps|reflexivity].
  - destruct (pcOf st d) as [[]|] eqn:Hp; try discriminate.
    destruct failed; injection Hstep as <-; [left; apply catchBlock_keeps|].
    right. exists d, newToken, newRefreshToken.
    split; [reflexivity|split; [exact Hp|]].
    unfold pcOf in Hp. destruct (tasks st !! d) as [t|] eqn:Ht; [|discriminate].
    by apply (successTail_keeps o d t).
  - destruct (pcOf st d) as [[]|]; try discriminate.
    destruct failed; [injection Hstep as <-; left; apply failTail_keeps|].
    destruct (onRefreshFailure o); injection Hstep as <-; left;
      [reflexivity|apply failTail_keeps].
  - destruct (pcOf st d) as [[]|]; try discriminate.
    destruct failed; injection Hstep as <-; left; apply failTail_keeps.
  - destruct (pcOf st tid) as [[]|]; try discriminate. injection Hstep as <-.
    left. apply resume_keeps.
Qed.

Lemma default_header_written_on_success_witness :
  exists st',
    step defaults staleHeader (GetRefreshTokenDone 1 (inr VNull)) = Some st' /\
    pcOf st' 1 = Some (AwaitRemoveToken (TError "No refresh token available")) /\
    defaultAuthorization st' = Some "Bearer abc2".
Proof.
  pose proof (default_header_written_on_success defaults staleHeader
                (GetRefreshTokenDone 1 (inr VNull))) as H.
  destruct (step defaults staleHeader (GetRefreshTokenDone 1 (inr VNull))) as [st'|] eqn:E;
    [|vm_compute in E; discriminate].
  exists st'. split; [reflexivity|].
  destruct (H st' eq_refl) as [Hd|(d & nt & nrt & Hi & _)]; [|discriminate].
  split; [|rewrite Hd; vm_compute; reflexivity].
  vm_compute in E. injection E as <-. reflexivity.
Defined.

(** ** The driver across the building blocks *)

Lemma Driver_goto_self st d t p :
  tasks st !! d = Some t -> driving p = true -> Driver (goto d p st) d.
Proof.
  intros Ht Hp. exists (setPc p t). split; [|exact Hp].
  rewrite tasks_goto, decide_True, Ht by reflexivity. reflexivity.
Qed.

Lemma Driver_goto_other st d d' p : Driver st d -> d <> d' -> Driver (goto d' p st) d.
Proof.
  intros (t & Ht & Hd) Hne. exists t. split; [|exact Hd].
  rewrite tasks_goto, decide_False by congruence. exact Ht.
Qed.

Lemma Driver_catchBlock d' err st d : Driver st d -> Driver (catchBlock d' err st) d.
Proof.
  intros (t & Ht & Hd).
  destruct (catchBlock_spec d' err st) as (_ & _ & _ & _ & _ & E).
  unfold Driver. rewrite E, Ht. case_decide; simpl; eexists; split; try reflexivity.
  by rewrite wakeIn_driving.
Qed.

Lemma Driver_afterPost o d' data st d : Driver st d -> Driver (afterPost o d' data st) d.
Proof.
  intros HD. unfold afterPost.
  destruct (responseAdapterOf o data) as [e|[nt nrt]]; [by apply Driver_catchBlock|].
  destruct (decide (d = d')) as [->|Hne]; [|by apply Driver_goto_other].
  destruct HD as (t & Ht & _). by apply (Driver_goto_self _ d' t).
Qed.

Lemma Driver_settleReq o rid r st d : Driver st d -> Driver (settleReq o rid r st) d.
Proof.
  intros HD. unfold settleReq. destruct (reqs st !! rid) as [q|]; [|exact HD].
  destruct (awaiter q) as [|d']; [exact HD|].
  set (st1 := emit _ _). assert (HD1 : Driver st1 d) by exact HD.
  destruct (pcOf st1 d') as [[]|]; try exact HD.
  destruct r as [e|data]; [by apply Driver_catchBlock|by apply Driver_afterPost].
Qed.

Lemma Driver_rejectWith o tid e st d :
  Driver st d -> d <> tid -> Driver (rejectWith o tid e st) d.
Proof.
  intros HD Hne. unfold rejectWith. destruct (tasks st !! tid) as [t|]; [|exact HD].
  apply Driver_settleReq. by apply Driver_goto_other.
Qed.

Lemma Driver_retryOriginal tid st d :
  Driver st d -> d <> tid -> Driver (retryOriginal tid st) d.
Proof.
  intros HD Hne. unfold retryOriginal. destruct (tasks st !! tid) as [t|]; [|exact HD].
  apply Driver_goto_other; [|exact Hne].
  unfold reissue. destruct (reqs st !! t_rid t); exact HD.
Qed.

Lemma Driver_resume o tid t r st d :
  tasks st !! tid = Some t -> driving (pc t) = false ->
  Driver st d -> Driver (resume o tid r st) d.
Proof.
  intros Ht Hp HD.
  assert (Hne : d <> tid).
  { intros ->. destruct HD as (t' & Ht' & Hd). congruence. }
  unfold resume. destruct r as [err|tok]; [by apply Driver_rejectWith|].
  rewrite Ht. destruct (cfg <$> reqs st !! t_rid t) as [c|]; [|exact HD].
  destruct (hasHeaders c); [|by apply Driver_rejectWith].
  apply Driver_retryOriginal; [exact HD|exact Hne].
Qed.

Lemma Driver_caught d t e st : tasks st !! d = Some t -> Driver (catchBlock d e st) d.
Proof.
  intros Ht. destruct (catchBlock_spec d e st) as (_ & _ & _ & _ & _ & E).
  unfold Driver. rewrite E, Ht, decide_True by reflexivity. simpl.
  eexists. split; reflexivity.
Qed.

Lemma Driver_afterGetRefreshToken o d t got st :
  tasks st !! d = Some t -> Driver (afterGetRefreshToken o d got st) d.
Proof.
  intros Ht. unfold afterGetRefreshToken.
  destruct got as [e|rt]; [by apply (Driver_caught d t)|].
  destruct (negb (truthy rt)); [by apply (Driver_caught d t)|].
  destruct (payloadAdapterOf o rt); [by apply (Driver_caught d t)|].
  by apply (Driver_goto_self _ d t).
Qed.

Lemma flag_driver_step o st i st' :
  (isRefreshing st = true -> exists d, Driver st d) ->
  step o st i = Some st' ->
  isRefreshing st' = true -> exists d, Driver st' d.
Proof.
  intros HJ Hstep.
  assert (Hsettle : forall rid r, isRefreshing (settleReq o rid r st) = true ->
                                  exists d, Driver (settleReq o rid r st) d).
  { intros rid r0. destruct (settleReq_keeps o rid r0 st) as [-> _].
    intros Hf. destruct (HJ Hf) as [d HD]. exists d. by apply Driver_settleReq. }
  assert (Hsuspend : forall rid status st1,
            onRejected rid status st = (st1, Suspends) -> exists d, Driver st1 d).
  { intros rid status st1 Hon.
    apply onRejected_Suspends in Hon as (q & _ & _ & _ & ->).
    destruct (isRefreshing st) eqn:Hf.
    - destruct (HJ eq_refl) as (d & t & Ht & Hd). exists d, t.
      split; [|exact Hd]. by apply spawn_old.
    - exists (length (tasks st)), {| t_rid := rid; pc := AwaitGetRefreshToken |}.
      split; [|reflexivity].
      rewrite tasks_spawn.
      change (tasks (emit _ (setRefreshing true (editReq rid _ st)))) with (tasks st).
      rewrite (proj2 (lookup_ge_None (tasks st) (length (tasks st)))) by lia.
      rewrite decide_True by reflexivity. reflexivity. }
  destruct i as [c|rid got|rid r|d got|d failed|d failed|d failed|d failed|tid];
    simpl in Hstep.
  - injection Hstep as <-. exact HJ.
  - destruct got as [e|tok].
    + change (step o st (GetTokenDone rid (inl e)) = Some st') in Hstep.
      apply step_getToken_failed in Hstep
        as (q & _ & _ & [(e' & ->)|(status & Hon)]); [by apply Hsettle|].
      intros _. by apply (Hsuspend rid status).
    + destruct (reqs st !! rid) as [[c a []]|]; try discriminate.
      injection Hstep as <-. exact HJ.
  - destruct (stage <$> reqs st !! rid) as [[]|]; try discriminate.
    destruct r as [status|data]; [|injection Hstep as <-; apply Hsettle].
    destruct (onRejected rid status st) as [st1 [e|]] eqn:Hon; injection Hstep as <-.
    + apply onRejected_Rejects in Hon as [-> _]. apply Hsettle.
    + intros _. by apply (Hsuspend rid status).
  - unfold pcOf in Hstep. destruct (tasks st !! d) as [t|] eqn:Ht; [|discriminate].
    simpl in Hstep. destruct (pc t); try discriminate. injection Hstep as <-.
    intros _. exists d. by apply (Driver_afterGetRefreshToken o d t).
  - unfold pcOf in Hstep. destruct (tasks st !! d) as [t|] eqn:Ht; [|discriminate].
    simpl in Hstep. destruct (pc t); try discriminate.
    destruct failed; injection Hstep as <-; intros _; exists d;
      [by apply (Driver_caught d t)|by apply (Driver_goto_self _ d t)].
  - unfold pcOf in Hstep. destruct (tasks st !! d) as [t|] eqn:Ht; [|discriminate].
    simpl in Hstep. destruct (pc t); try discriminate.
    destruct failed; injection Hstep as <-.
    + intros _. exists d. by apply (Driver_caught d t).
    + destruct (successTail_keeps o d t newToken st Ht) as [-> _]. discriminate.
  - unfold pcOf in Hstep. destruct (tasks st !! d) as [t|] eqn:Ht; [|discriminate].
    simpl in Hstep. destruct (pc t); try discriminate.
    destruct failed; [injection Hstep as <-|].
    + destruct (failTail_keeps o d t0 st) as [-> _]. discriminate.
    + destruct (onRefreshFailure o); injection Hstep as <-.
      * intros _. exists d. by apply (Driver_goto_self _ d t).
      * destruct (failTail_keeps o d err st) as [-> _]. discriminate.
  - unfold pcOf in Hstep. destruct (tasks st !! d) as [t|] eqn:Ht; [|discriminate].
    simpl in Hstep. destruct (pc t); try discriminate.
    destruct failed; injection Hstep as <-;
      match goal with |- context [failTail o d ?e st] =>
        destruct (failTail_keeps o d e st) as [-> _] end; discriminate.
  - unfold pcOf in Hstep. destruct (tasks st !! tid) as [t|] eqn:Ht; [|discriminate].
    simpl in Hstep. destruct (pc t) eqn:Hp; try discriminate. injection Hstep as <-.
    destruct (resume_keeps o tid r st) as [-> _].
    intros Hf. destruct (HJ Hf) as [d HD]. exists d.
    apply (Driver_resume o tid t); [exact Ht|by rewrite Hp|exact HD].
Qed.

(** ** The flag (lines 76, 128 and 177-179) *)

(** In every state the client can reach, [isRefreshing] is true exactly when
    an invocation of the response interceptor is between line 128 and its
    [finally]: the flag is never left set after the refresh has ended, however
    it ended, and never cleared while a refresh is running. *)
Theorem flag_marks_the_driver o st :
  Reachable o st -> (isRefreshing st = true <-> exists d, Driver st d).
Proof.
  intros HR. split.
  - induction HR as [|st i st' HR IH Hstep]; [discriminate|].
    by apply (flag_driver_step o st i st').
  - intros (d & t & Ht & Hd). apply Reachable_Inv in HR.
    by apply (inv_flag st HR d t).
Qed.

Lemma flag_marks_the_driver_witness :
  isRefreshing callbackPending = true <-> exists d, Driver callbackPending d.
Proof.
  apply (flag_marks_the_driver defaults).
  apply (after_Reachable defaults _ callbackPending). vm_compute. reflexivity.
Defined.

(** ** What a queued invocation is woken with *)

Lemma verdict_settledWith error tok r : verdict error tok = Some r -> settledWith r = true.
Proof.
  unfold verdict. destruct (truthyT error) eqn:He; [by intros [= <-]|].
  destruct (truthy tok) eqn:Ht; [by intros [= <-]|discriminate].
Qed.

Lemma AllOk_goto d p st : wokenOk p = true -> AllOk st -> AllOk (goto d p st).
Proof.
  intros Hp HA j t' Hj.
  apply goto_lookup in Hj as [(-> & t & Ht & ->)|(_ & Hj)]; [exact Hp|by apply (HA j)].
Qed.

Lemma AllOk_spawn rid p st : wokenOk p = true -> AllOk st -> AllOk (spawn rid p st).
Proof.
  intros Hp HA j t' Hj.
  apply spawn_lookup in Hj as [Hj|(_ & _ & ->)]; [by apply (HA j)|exact Hp].
Qed.

Lemma AllOk_processQueue error tok st : AllOk st -> AllOk (processQueue error tok st).
Proof.
  intros HA j t' Hj.
  destruct (processQueue_spec error tok st) as (_ & _ & _ & _ & _ & E).
  rewrite E in Hj. destruct (tasks st !! j) as [t|] eqn:Ht; [|discriminate].
  injection Hj as <-.
  destruct (wakeIn_pc (verdict error tok) (failedQueue st) j t)
    as [->|(_ & r & Hv & _ & ->)]; [by apply (HA j)|].
  by apply (verdict_settledWith error tok).
Qed.

Lemma AllOk_catchBlock d err st : AllOk st -> AllOk (catchBlock d err st).
Proof.
  intros HA. unfold catchBlock. apply AllOk_goto; [reflexivity|].
  by apply (AllOk_processQueue err VNull st).
Qed.

Lemma AllOk_afterPost o d data st : AllOk st -> AllOk (afterPost o d data st).
Proof.
  intros HA. unfold afterPost.
  destruct (responseAdapterOf o data) as [e|[nt nrt]];
    [by apply AllOk_catchBlock|by apply AllOk_goto].
Qed.

Lemma AllOk_settleReq o rid r st : AllOk st -> AllOk (settleReq o rid r st).
Proof.
  intros HA. unfold settleReq. destruct (reqs st !! rid) as [q|]; [|exact HA].
  destruct (awaiter q) as [|d]; [exact HA|].
  set (st1 := emit _ _). assert (HA1 : AllOk st1) by exact HA.
  destruct (pcOf st1 d) as [[]|]; try exact HA.
  destruct r as [e|data]; [by apply AllOk_catchBlock|by apply AllOk_afterPost].
Qed.

Lemma AllOk_rejectWith o tid e st : AllOk st -> AllOk (rejectWith o tid e st).
Proof.
  intros HA. unfold rejectWith. destruct (tasks st !! tid) as [t|]; [|exact HA].
  apply AllOk_settleReq. by apply AllOk_goto.
Qed.

Lemma AllOk_retryOriginal tid st : AllOk st -> AllOk (retryOriginal tid st).
Proof.
  intros HA. unfold retryOriginal. destruct (tasks st !! tid) as [t|]; [|exact HA].
  apply AllOk_goto; [reflexivity|].
  unfold reissue. destruct (reqs st !! t_rid t); exact HA.
Qed.

Lemma AllOk_resume o tid r st : AllOk st -> AllOk (resume o tid r st).
Proof.
  intros HA. unfold resume. destruct r as [err|tok]; [by apply AllOk_rejectWith|].
  destruct (tasks st !! tid) as [t|]; [|exact HA].
  destruct (cfg <$> reqs st !! t_rid t) as [c|]; [|exact HA].
  destruct (hasHeaders c); [|by apply AllOk_rejectWith].
  by apply AllOk_retryOriginal.
Qed.

Lemma AllOk_afterGetRefreshToken o d got st :
  AllOk st -> AllOk (afterGetRefreshToken o d got st).
Proof.
  intros HA. unfold afterGetRefreshToken.
  destruct got as [e|rt]; [by apply AllOk_catchBlock|].
  destruct (negb (truthy rt)); [by apply AllOk_catchBlock|].
  destruct (payloadAdapterOf o rt); [by apply AllOk_catchBlock|by apply AllOk_goto].
Qed.

Lemma AllOk_successTail o d newToken st : AllOk st -> AllOk (successTail o d newToken st).
Proof.
  intros HA. unfold successTail. destruct (tasks st !! d) as [t|]; [|exact HA].
  match goal with |- AllOk (setRefreshing false (retryOriginal d ?s)) =>
    change (AllOk (retryOriginal d s)); apply AllOk_retryOriginal
  end.
  match goal with |- AllOk (editReq _ _ ?s) => change (AllOk s) end.
  by apply AllOk_processQueue.
Qed.

Lemma AllOk_step o st i st' : AllOk st -> step o st i = Some st' -> AllOk st'.
Proof.
  intros HA Hstep.
  assert (Hsuspend : forall rid status st1,
            onRejected rid status st = (st1, Suspends) -> AllOk st1).
  { intros rid status st1 Hon.
    apply onRejected_Suspends in Hon as (q & _ & _ & _ & ->).
    destruct (isRefreshing st); by apply AllOk_spawn. }
  destruct i as [c|rid got|rid r|d got|d failed|d failed|d failed|d failed|tid];
    simpl in Hstep.
  - injection Hstep as <-. exact HA.
  - destruct got as [e|tok].
    + change (step o st (GetTokenDone rid (inl e)) = Some st') in Hstep.
      apply step_getToken_failed in Hstep
        as (q & _ & _ & [(e' & ->)|(status & Hon)]); [by apply AllOk_settleReq|].
      by apply (Hsuspend rid status).
    + destruct (reqs st !! rid) as [[c a []]|]; try discriminate.
      injection Hstep as <-. exact HA.
  - destruct (stage <$> reqs st !! rid) as [[]|]; try discriminate.
    destruct r as [status|data]; [|injection Hstep as <-; by apply AllOk_settleReq].
    destruct (onRejected rid status st) as [st1 [e|]] eqn:Hon; injection Hstep as <-.
    + apply onRejected_Rejects in Hon as [-> _]. by apply AllOk_settleReq.
    + by apply (Hsuspend rid status).
  - destruct (pcOf st d) as [[]|]; try discriminate. injection Hstep as <-.
    by apply AllOk_afterGetRefreshToken.
  - destruct (pcOf st d) as [[]|]; try discriminate.
    destruct failed; injection Hstep as <-; [by apply AllOk_catchBlock|by apply AllOk_goto].
  - destruct (pcOf st d) as [[]|]; try discriminate.
    destruct failed; injection Hstep as <-;
      [by apply AllOk_catchBlock|by apply AllOk_successTail].
  - destruct (pcOf st d) as [[]|]; try discriminate.
    destruct failed; [injection Hstep as <-; by apply (AllOk_rejectWith o d)|].
    destruct (onRefreshFailure o); injection Hstep as <-;
      [by apply AllOk_goto|by apply (AllOk_rejectWith o d)].
  - destruct (pcOf st d) as [[]|]; try discriminate.
    destruct failed; injection Hstep as <-; by apply (AllOk_rejectWith o d).
  - destruct (pcOf st tid) as [[]|]; try discriminate. injection Hstep as <-.
    by apply AllOk_resume.
Qed.

(** A queued invocation is woken with something to act on: the error it is
    rejected with is truthy and the token it is resolved with is a non-empty
    string.  So the header line 121 writes is never built from [null],
    [undefined] or the empty string, unlike the header of the driving request
    on line 160. *)
Theorem waiter_woken_with_truthy o st w t r :
  Reachable o st -> tasks st !! w = Some t -> pc t = Woken r ->
  match r with
  | inl e => truthyT e = true
  | inr tok => exists s, tok = VStr s /\ s <> ""
  end.
Proof.
  intros HR Ht Hp.
  assert (HA : AllOk st).
  { clear Ht. induction HR as [|st i st' HR IH Hstep];
      [intros j t' Hj; simpl in Hj; by rewrite lookup_nil in Hj|by apply (AllOk_step o st i)]. }
  specialize (HA w t Ht). rewrite Hp in HA. simpl in HA.
  destruct r as [e|tok]; [exact HA|].
  destruct tok as [| |s]; try discriminate. exists s. split; [reflexivity|].
  intros ->. discriminate.
Qed.

Lemma waiter_woken_with_truthy_witness : exists s, VStr "abc2" = VStr s /\ s <> "".
Proof.
  apply (waiter_woken_with_truthy defaults wokenWaiter 1
           {| t_rid := 1; pc := Woken (inr (VStr "abc2")) |} (inr (VStr "abc2")));
    [|vm_compute; reflexivity|reflexivity].
  apply (after_Reachable defaults _ wokenWaiter). vm_compute. reflexivity.
Defined.

(** ** The refresh call answered with a 401: what follows *)

Lemma settleReq_plain o rid r st q :
  reqs st !! rid = Some q ->
  (forall d', awaiter q = RefreshCall d' -> pcOf st d' <> Some AwaitPost) ->
  settleReq o rid r st = emit (EvSettle rid r) (editReq rid (setStage Answered) st).
Proof.
  intros Hq Hno. unfold settleReq. rewrite Hq.
  destruct (awaiter q) as [|d'] eqn:Ha; [reflexivity|].
  change (pcOf (emit (EvSettle rid r) (editReq rid (setStage Answered) st)) d')
    with (pcOf st d').
  destruct (pcOf st d') as [[]|] eqn:E; try reflexivity.
  exfalso. by apply (Hno d').
Qed.

Lemma deadlock_not_awaited st d p j rid q :
  Inv st -> Deadlocked st d p j ->
  reqs st !! rid = Some q -> rid <> p -> stage q <> Answered ->
  forall d', awaiter q = RefreshCall d' -> pcOf st d' <> Some AwaitPost.
Proof.
  intros HI ((t & Ht & Hp) & (qp & Hqp & Hap & Hsp) & _) Hq Hne Hs d' Ha Hpc.
  unfold pcOf in Hpc. destruct (tasks st !! d') as [t'|] eqn:Ht'; [|discriminate].
  injection Hpc as Hpc.
  assert (d' = d) as ->.
  { apply (inv_one st HI d' d t' t Ht' Ht); [by rewrite Hpc|by rewrite Hp]. }
  apply Hne. apply (inv_uniq st HI rid p q qp d Hq Hqp Ha Hap Hs).
  rewrite Hsp. discriminate.
Qed.

Lemma deadlock_kept st st' d p j l evs :
  Inv st -> Deadlocked st d p j ->
  tasks st' !! d = tasks st !! d -> reqs st' !! p = reqs st !! p ->
  failedQueue st' = failedQueue st ++ l -> isRefreshing st' = isRefreshing st ->
  trace st' = trace st ++ evs -> countEv isPost evs = 0 -> countEv isSettling evs = 0 ->
  Deadlocked st' d p j /\ isRefreshing st' = true /\ posts st' = posts st /\
  countEv isSettling (trace st') = countEv isSettling (trace st) /\
  exists l', failedQueue st' = failedQueue st ++ l'.
Proof.
  intros HI ((t & Ht & Hp) & Hq & Hj) Et Er Eq Ef Etr Hposts Hsettle.
  repeat split.
  - exists t. by rewrite Et.
  - by rewrite Er.
  - rewrite Eq. apply elem_of_app. by left.
  - rewrite Ef. apply (inv_flag st HI d t Ht). by rewrite Hp.
  - unfold posts. rewrite Etr, countEv_app. lia.
  - rewrite Etr, countEv_app. lia.
  - by exists l.
Qed.

Lemma deadlock_rejectWith o st d p j tid t r e :
  Inv st -> Deadlocked st d p j ->
  tasks st !! tid = Some t -> pc t = Woken r ->
  tid <> d /\ t_rid t <> p /\
  rejectWith o tid e st =
  emit (EvSettle (t_rid t) (inl e))
    (editReq (t_rid t) (setStage Answered) (goto tid Finished st)).
Proof.
  intros HI HD Ht Hp.
  destruct HD as ((td & Htd & Hpd) & (qp & Hqp & Hap & Hsp) & Hj).
  destruct (inv_task st HI tid t Ht) as (q & Hq & Hs); [congruence|].
  destruct (inv_queue st HI j Hj) as (tj & Htj & Hpj).
  assert (Hnd : tid <> d) by (intros ->; congruence).
  assert (Hnp : t_rid t <> p).
  { intros E. rewrite E in Hq. rewrite Hqp in Hq. injection Hq as <-.
    rewrite Hsp in Hs. injection Hs as ->. congruence. }
  split; [exact Hnd|split; [exact Hnp|]].
  unfold rejectWith. rewrite Ht.
  apply (settleReq_plain o (t_rid t) (inl e) (goto tid Finished st) q); [exact Hq|].
  intros d' Ha Hpc.
  assert (HD : Deadlocked st d p j).
  { split; [by exists td|split; [by exists qp|exact Hj]]. }
  apply (deadlock_not_awaited st d p j (t_rid t) q HI HD Hq Hnp) with (d' := d');
    [rewrite Hs; discriminate|exact Ha|].
  unfold pcOf in *. rewrite tasks_goto in Hpc.
  case_decide; [|exact Hpc]. subst d'. rewrite Ht in Hpc. discriminate.
Qed.

Lemma deadlock_step o st d p j i st' :
  Inv st -> Deadlocked st d p j -> step o st i = Some st' ->
  Deadlocked st' d p j /\ isRefreshing st' = true /\ posts st' = posts st /\
  countEv isSettling (trace st') = countEv isSettling (trace st) /\
  exists l, failedQueue st' = failedQueue st ++ l.
Proof.
  intros HI HD Hstep.
  pose proof HD as ((td & Htd & Hpd) & (qp & Hqp & Hap & Hsp) & Hj).
  assert (Hflag : isRefreshing st = true).
  { apply (inv_flag st HI d td Htd). by rewrite Hpd. }
  assert (Hidle : forall d' t', tasks st !! d' = Some t' -> driving (pc t') = true ->
                                pc t' = AwaitPost).
  { intros d' t' Ht' Hd'.
    assert (d' = d) as -> by (apply (inv_one st HI d' d t' td Ht' Htd); [exact Hd'|by rewrite Hpd]).
    congruence. }
  assert (Hsettle : forall rid r q, reqs st !! rid = Some q -> rid <> p -> stage q <> Answered ->
            Deadlocked (settleReq o rid r st) d p j /\
            isRefreshing (settleReq o rid r st) = true /\
            posts (settleReq o rid r st) = posts st /\
            countEv isSettling (trace (settleReq o rid r st)) = countEv isSettling (trace st) /\
            exists l, failedQueue (settleReq o rid r st) = failedQueue st ++ l).
  { intros rid r q Hq Hne Hs.
    rewrite (settleReq_plain o rid r st q Hq
               (deadlock_not_awaited st d p j rid q HI HD Hq Hne Hs)).
    apply (deadlock_kept st _ d p j [] [EvSettle rid r]); auto.
    - change (reqs (emit _ ?s)) with (reqs s).
      rewrite reqs_editReq, decide_False by assumption. reflexivity.
    - simpl. by rewrite app_nil_r. }
  assert (Hsuspend : forall rid status st1,
            rid <> p -> onRejected rid status st = (st1, Suspends) ->
            Deadlocked st1 d p j /\ isRefreshing st1 = true /\ posts st1 = posts st /\
            countEv isSettling (trace st1) = countEv isSettling (trace st) /\
            exists l, failedQueue st1 = failedQueue st ++ l).
  { intros rid status st1 Hne Hon.
    apply onRejected_Suspends in Hon as (q & _ & _ & _ & ->). rewrite Hflag.
    apply (deadlock_kept st _ d p j [length (tasks st)] []); auto.
    - rewrite Htd. by apply spawn_old.
    - change (reqs (spawn _ _ (setQueue _ ?s))) with (reqs s).
      rewrite reqs_editReq, decide_False by assumption. reflexivity.
    - simpl. by rewrite app_nil_r. }
  destruct i as [c|rid got|rid r|d' got|d' failed|d' failed|d' failed|d' failed|tid];
    simpl in Hstep.
  - injection Hstep as <-.
    apply (deadlock_kept st _ d p j [] []); auto.
    + simpl. rewrite lookup_app_l by (by eapply lookup_lt_Some). reflexivity.
    + simpl. by rewrite app_nil_r.
    + simpl. by rewrite app_nil_r.
  - destruct got as [e|tok].
    + change (step o st (GetTokenDone rid (inl e)) = Some st') in Hstep.
      apply step_getToken_failed in Hstep as (q & Hq & Hs & Hcase).
      assert (Hne : rid <> p).
      { intros ->. rewrite Hqp in Hq. injection Hq as ->. congruence. }
      assert (Hna : stage q <> Answered) by (rewrite Hs; discriminate).
      destruct Hcase as [(e' & ->)|(status & Hon)]; [by apply (Hsettle rid _ q)|].
      by apply (Hsuspend rid status).
    + destruct (reqs st !! rid) as [[c a s]|] eqn:Hq; [|discriminate].
      destruct s; try discriminate.
      assert (Hne : rid <> p).
      { intros ->. rewrite Hqp in Hq. injection Hq as ->. discriminate. }
      injection Hstep as <-.
      apply (deadlock_kept st _ d p j [] []); auto.
      * rewrite reqs_editReq, decide_False by assumption. reflexivity.
      * simpl. by rewrite app_nil_r.
      * simpl. by rewrite app_nil_r.
  - destruct (reqs st !! rid) as [q|] eqn:Hq; [|discriminate]. simpl in Hstep.
    destruct (stage q) eqn:Hs; try discriminate.
    assert (Hne : rid <> p).
    { intros ->. rewrite Hqp in Hq. injection Hq as ->. congruence. }
    assert (Hna : stage q <> Answered) by (rewrite Hs; discriminate).
    destruct r as [status|data]; [|injection Hstep as <-; by apply (Hsettle rid _ q)].
    destruct (onRejected rid status st) as [st1 [e|]] eqn:Hon; injection Hstep as <-.
    + apply onRejected_Rejects in Hon as [-> _]. by apply (Hsettle rid _ q).
    + by apply (Hsuspend rid status).
  - unfold pcOf in Hstep. destruct (tasks st !! d') as [t|] eqn:Ht; [|discriminate].
    simpl in Hstep. destruct (pc t) eqn:Hp; try discriminate.
    assert (pc t = AwaitPost) by (apply (Hidle d' t Ht); by rewrite Hp). congruence.
  - unfold pcOf in Hstep. destruct (tasks st !! d') as [t|] eqn:Ht; [|discriminate].
    simpl in Hstep. destruct (pc t) eqn:Hp; try discriminate.
    assert (pc t = AwaitPost) by (apply (Hidle d' t Ht); by rewrite Hp). congruence.
  - unfold pcOf in Hstep. destruct (tasks st !! d') as [t|] eqn:Ht; [|discriminate].
    simpl in Hstep. destruct (pc t) eqn:Hp; try discriminate.
    assert (pc t = AwaitPost) by (apply (Hidle d' t Ht); by rewrite Hp). congruence.
  - unfold pcOf in Hstep. destruct (tasks st !! d') as [t|] eqn:Ht; [|discriminate].
    simpl in Hstep. destruct (pc t) eqn:Hp; try discriminate.
    assert (pc t = AwaitPost) by (apply (Hidle d' t Ht); by rewrite Hp). congruence.
  - unfold pcOf in Hstep. destruct (tasks st !! d') as [t|] eqn:Ht; [|discriminate].
    simpl in Hstep. destruct (pc t) eqn:Hp; try discriminate.
    assert (pc t = AwaitPost) by (apply (Hidle d' t Ht); by rewrite Hp). congruence.
  - unfold pcOf in Hstep. destruct (tasks st !! tid) as [t|] eqn:Ht; [|discriminate].
    simpl in Hstep. destruct (pc t) eqn:Hp; try discriminate. injection Hstep as <-.
    assert (Hrej : forall e,
              Deadlocked (rejectWith o tid e st) d p j /\
              isRefreshing (rejectWith o tid e st) = true /\
              posts (rejectWith o tid e st) = posts st /\
              countEv isSettling (trace (rejectWith o tid e st))
                = countEv isSettling (trace st) /\
              exists l, failedQueue (rejectWith o tid e st) = failedQueue st ++ l).
    { intros e. destruct (deadlock_rejectWith o st d p j tid t r e HI HD Ht Hp)
        as (Hnd & Hnp & ->).
      apply (deadlock_kept st _ d p j [] [EvSettle (t_rid t) (inl e)]); auto.
      - change (tasks (emit _ (editReq _ _ ?s))) with (tasks s).
        rewrite tasks_goto, decide_False by congruence. reflexivity.
      - change (reqs (emit _ ?s)) with (reqs s).
        rewrite reqs_editReq, decide_False by assumption. reflexivity.
      - simpl. by rewrite app_nil_r. }
    unfold resume. destruct r as [err|tok]; [apply Hrej|].
    rewrite Ht. destruct (reqs st !! t_rid t) as [q|] eqn:Hq; simpl.
    + destruct (hasHeaders (cfg q)); [|apply Hrej].
      destruct (deadlock_rejectWith o st d p j tid t (inr tok) TTypeError HI HD Ht Hp)
        as (Hnd & Hnp & _).
      set (st1 := editReq (t_rid t) _ st).
      assert (Hq1 : reqs st1 !! t_rid t =
                    Some (setCfg (setAuthorization (bearer o tok) (cfg q)) q)).
      { subst st1. rewrite reqs_editReq, decide_True, Hq by reflexivity. reflexivity. }
      unfold retryOriginal. change (tasks st1) with (tasks st). rewrite Ht.
      rewrite (reissue_eq _ _ _ Hq1).
      apply (deadlock_kept st _ d p j []
               [EvReissue (t_rid t) (setAuthorization (bearer o tok) (cfg q))]); auto.
      * rewrite tasks_goto, decide_False by assumption. reflexivity.
      * change (reqs (goto _ _ (emit _ ?s))) with (reqs s).
        rewrite reqs_editReq, decide_False by assumption. subst st1.
        rewrite reqs_editReq, decide_False by assumption. reflexivity.
      * simpl. by rewrite app_nil_r.
    + apply (deadlock_kept st _ d p j [] []); auto; simpl; by rewrite app_nil_r.
Qed.

(** Once the refresh call has been answered with a 401 and was queued behind
    the refresh that awaits it, the client does not recover, whatever happens
    next: the driver stays at line 139, [isRefreshing] stays true, no further
    refresh call is made, [processQueue] never runs ([resolve] and [reject]
    are not called again), and the queue only grows, since every later 401 is
    queued as well. *)
Theorem refresh_call_401_deadlock o st d p j ins st' :
  Reachable o st -> Deadlocked st d p j -> run o st ins = Some st' ->
  Deadlocked st' d p j /\ isRefreshing st' = true /\ posts st' = posts st /\
  countEv isSettling (trace st') = countEv isSettling (trace st) /\
  exists l, failedQueue st' = failedQueue st ++ l.
Proof.
  intros HR HD Hrun. revert st HR HD Hrun.
  induction ins as [|i ins IH]; intros st HR HD Hrun; simpl in Hrun.
  - injection Hrun as <-. pose proof (Reachable_Inv o st HR) as HI.
    apply (deadlock_kept st st d p j [] []); auto; by rewrite app_nil_r.
  - destruct (step o st i) as [st1|] eqn:Hstep; [|discriminate].
    destruct (deadlock_step o st d p j i st1 (Reachable_Inv o st HR) HD Hstep)
      as (HD1 & _ & Hp1 & Hs1 & l1 & Hq1).
    destruct (IH st1 (reach_step o st i st1 HR Hstep) HD1 Hrun)
      as (HD' & Hf' & Hp' & Hs' & l' & Hq').
    split; [exact HD'|split; [exact Hf'|split; [congruence|split; [congruence|]]]].
    exists (l1 ++ l'). rewrite Hq', Hq1, <- app_assoc. reflexivity.
Qed.

Lemma refresh_call_401_deadlock_witness :
  exists st',
    run defaults (after defaults refreshUnauthorized)
      [CallerSend (plain "/b"); GetTokenDone 2 (inr (VStr "abc")); Response 2 unauthorized]
      = Some st' /\
    isRefreshing st' = true /\ posts st' = 1.
Proof.
  destruct (run defaults (after defaults refreshUnauthorized)
              [CallerSend (plain "/b"); GetTokenDone 2 (inr (VStr "abc"));
               Response 2 unauthorized]) as [st'|] eqn:E;
    [|vm_compute in E; discriminate].
  exists st'. split; [reflexivity|].
  assert (HR : Reachable defaults (after defaults refreshUnauthorized)).
  { apply (after_Reachable defaults _ (after defaults refreshUnauthorized)).
    vm_compute. reflexivity. }
  assert (HD : Deadlocked (after defaults refreshUnauthorized) 0 1 1).
  { split; [|split].
    - eexists. split; vm_compute; reflexivity.
    - eexists. repeat split; vm_compute; reflexivity.
    - vm_compute. apply list_elem_of_here. }
  destruct (refresh_call_401_deadlock defaults _ 0 1 1 _ st' HR HD E) as (_ & Hf & Hp & _).
  split; [exact Hf|]. rewrite Hp. vm_compute. reflexivity.
Defined.

(** ** What the setters are called with (lines 68-71 and 145-150) *)

(** With no response adapter configured, nothing the refresh call returns in
    its body is checked before it is stored: [setTokenFn] is called with
    [token || accessToken] and then [setRefreshTokenFn] with [refreshToken],
    whatever these are.  A body without a [refreshToken] member has
    [setRefreshTokenFn] called with [undefined]. *)
Theorem credentials_stored_unchecked o st p q d t b :
  refreshTokenResponseAdapter o = None ->
  reqs st !! p = Some q -> stage q = Sent -> awaiter q = RefreshCall d ->
  tasks st !! d = Some t -> pc t = AwaitPost ->
  exists st',
    run o st [Response p (inr (Some b)); SetTokenDone d None] = Some st' /\
    trace st' = trace st ++ [EvSettle p (inr (Some b));
                             EvSetToken d (jsOr (token b) (accessToken b));
                             EvSetRefreshToken d (refreshToken b)] /\
    pcOf st' d = Some (AwaitSetRefreshToken (jsOr (token b) (accessToken b)) (refreshToken b)) /\
    failedQueue st' = failedQueue st /\
    defaultAuthorization st' = defaultAuthorization st.
Proof.
  intros Had Hq Hs Ha Ht Hp.
  assert (Hr : responseAdapterOf o (Some b)
               = inr (jsOr (token b) (accessToken b), refreshToken b)).
  { unfold responseAdapterOf. rewrite Had. reflexivity. }
  pose proof (step_refreshAnswer o st p q d t _ _ _ Hq Hs Ha Ht Hp Hr) as Hstep.
  unfold Data in Hstep. rewrite run_cons, Hstep.
  set (st1 := goto d _ _).
  assert (Ht1 : tasks st1 !! d
                = Some (setPc (AwaitSetToken (jsOr (token b) (accessToken b)) (refreshToken b)) t)).
  { subst st1. rewrite tasks_goto, decide_True by reflexivity.
    change (tasks (emit _ (emit _ (editReq _ _ st)))) with (tasks st).
    rewrite Ht. reflexivity. }
  rewrite run_cons, (step_setToken o st1 d _ _ _ Ht1 eq_refl).
  eexists. split; [reflexivity|]. repeat split.
  - subst st1. simpl. rewrite <- !app_assoc. reflexivity.
  - apply (pcOf_goto_same _ d _ _ Ht1).
Qed.

Lemma credentials_stored_unchecked_witness :
  exists st',
    run defaults refreshInFlight
      [Response 1 (inr (body VUndefined (VStr "abc2") VUndefined)); SetTokenDone 0 None]
      = Some st' /\
    trace st' = trace refreshInFlight ++
                [EvSettle 1 (inr (body VUndefined (VStr "abc2") VUndefined));
                 EvSetToken 0 (VStr "abc2"); EvSetRefreshToken 0 VUndefined].
Proof.
  destruct (credentials_stored_unchecked defaults refreshInFlight 1
              {| cfg := setAuthorization "Bearer abc" (refreshConfig defaults);
                 awaiter := RefreshCall 0; stage := Sent |}
              0 {| t_rid := 0; pc := AwaitPost |}
              {| token := VUndefined; accessToken := VStr "abc2"; refreshToken := VUndefined |})
    as (st' & Hrun & Htr & _); try (vm_compute; reflexivity).
  exists st'. split; assumption.
Defined.
